(** * Exchange monitor: account-fetch orchestration, backoff and snapshot cache

    A shallow embedding of [src/services/accountManagerService.ts],
    [src/services/dataFetcherService.ts], the helpers of [src/config.ts],
    the data model of [src/models/position.model.ts] and the registration and
    selection handlers of [src/routes/exchange.routes.ts].

    Conventions of the embedding.
    - The module-level objects used as dictionaries ([exchangeClients],
      [lastFetchTimes], [errorCounts], [backoffTimes], [cachedData.accounts],
      [cachedData.accountConfigs]) are finite maps keyed by the account name.
    - Epoch milliseconds and error counters are JavaScript numbers that only
      ever hold integers far below 2^53, so they are integers here.  The
      numeric payload of a snapshot (prices, sizes, ...) is never computed
      with by the orchestrator; it is carried as the IEEE-754 bit pattern.
    - The outside world is an explicit argument: every reading of
      [Date.now()] and every outcome of an awaited connector call is supplied
      by the caller of the embedded function.
    - An [async] function is embedded as one atomic step (the event loop
      interleaves nothing else between its awaits); a function that can
      [throw] returns a sum, paired with the state it leaves behind.
    - Console output and connector calls are returned as a list of events. *)

From stdpp Require Import base strings gmap list.
From Stdlib Require Import ZArith Lia.

Local Open Scope Z_scope.
Local Open Scope string_scope.
Local Open Scope list_scope.

(** ** Data model ([models/position.model.ts], [config.ts]) *)

(** A JavaScript double that is only stored and copied: its bit pattern. *)
Definition float64 := Z.

Inductive Side := LONG | SHORT.
Inductive MarginMode := CROSS | ISOLATED.

Record Position := {
  symbol : string;
  side : Side;
  size : float64;
  notionalValue : float64;
  entryPrice : float64;
  markPrice : float64;
  liquidationPrice : float64;
  liquidationPriceChangePercent : float64;
  currentFundingRate : float64;
  nextFundingRate : float64;
  leverage : float64;
  unrealizedPnl : float64;
  realizedPnl : float64;
  marginMode : MarginMode;
  pos_exchange : string;
  pos_accountName : string
}.

Record AccountSummary := {
  sum_exchange : string;
  sum_accountName : string;
  sum_accountType : string;
  baseCurrency : string;
  baseBalance : float64;
  totalNotionalValue : float64;
  accountLeverage : float64;
  openPositionsCount : float64;
  openOrdersCount : float64;
  liquidationBuffer : float64;
  accountMarginRatio : float64
}.

Record ExchangeData := {
  positions : list Position;
  accountSummary : AccountSummary
}.

(** [exchange] and [accountType] are strings: the values come from a request
    body as well as from the configuration, and [initializeAccount] has a
    [default] branch for the ones outside the declared union. *)
Record AccountConfig := {
  name : string;
  exchange : string;
  accountType : string;
  apiKey : string;
  apiSecret : string;
  baseUrl : option string
}.

Record CombinedData := {
  accounts : gmap string ExchangeData;
  currentAccount : string;
  availableAccounts : list string;
  accountConfigs : gmap string AccountConfig
}.

Record Error := { message : string }.

#[global] Instance Side_eq_dec : EqDecision Side.
Proof. solve_decision. Defined.
#[global] Instance MarginMode_eq_dec : EqDecision MarginMode.
Proof. solve_decision. Defined.
#[global] Instance Error_eq_dec : EqDecision Error.
Proof. solve_decision. Defined.
#[global] Instance AccountConfig_eq_dec : EqDecision AccountConfig.
Proof. solve_decision. Defined.

(** ** Exchange connectors ([exchanges/*.client], used through
    [ExchangeClient]) *)

Inductive BinanceAccountType := FUTURES | PORTFOLIO_MARGIN.

(** The connector objects that [initializeAccount] constructs; what their
    [initialize] and [getExchangeData] answer is decided by the exchange and
    is an input of the functions below. *)
Inductive ExchangeClient :=
  | BinanceClient (t : BinanceAccountType) (key secret : string) (url : option string)
  | BybitClient (key secret : string) (url : option string).

#[global] Instance BinanceAccountType_eq_dec : EqDecision BinanceAccountType.
Proof. solve_decision. Defined.
#[global] Instance ExchangeClient_eq_dec : EqDecision ExchangeClient.
Proof. solve_decision. Defined.

(** ** Module state *)

(** [accountManagerService.ts] keeps four dictionaries, [dataFetcherService.ts]
    the cache. *)
Record State := {
  exchangeClients : gmap string ExchangeClient;
  lastFetchTimes : gmap string Z;
  errorCounts : gmap string Z;
  backoffTimes : gmap string Z;
  cachedData : CombinedData
}.

Definition initialCache : CombinedData :=
  {| accounts := ∅; currentAccount := ""; availableAccounts := [];
     accountConfigs := ∅ |}.

Definition initialState : State :=
  {| exchangeClients := ∅; lastFetchTimes := ∅; errorCounts := ∅;
     backoffTimes := ∅; cachedData := initialCache |}.

Definition MAX_CONSECUTIVE_ERRORS : Z := 5.
Definition INITIAL_BACKOFF : Z := 30000.
Definition FETCH_INTERVAL : Z := 40000.

(** What the functions print or call, in order. *)
Inductive Event :=
  | LogNoClient (accountName : string)
  | LogSkipBackoff (accountName : string)
  | ConnectorCall (accountName : string) (client : ExchangeClient)
                  (answer : Error + ExchangeData)
  | LogFetchError (accountName : string) (e : Error)
  | LogBackingOff (accountName : string) (backoffTime : Z).

(** ** [config.ts] helpers *)

Section Config.
(** [config.accounts] *)
Variable config_accounts : list AccountConfig.

Definition getAccountByName (n : string) : option AccountConfig :=
  List.find (fun account => bool_decide (name account = n)) config_accounts.

Definition getAccountsByExchange (ex : string) : list AccountConfig :=
  List.filter (fun account => bool_decide (exchange account = ex)) config_accounts.

Definition getAllAccountNames : list string :=
  List.map name config_accounts.

(** [AccountManager.getAvailableAccounts] *)
Definition getAvailableAccounts : list string :=
  List.map name config_accounts.

(** [AccountManager.getAccountConfig] *)
Definition getAccountConfig (accountName : string) : option AccountConfig :=
  getAccountByName accountName.

(** [AccountManager.getAllAccountConfigs]: a later account of the same name
    overwrites an earlier one. *)
Definition getAllAccountConfigs : gmap string AccountConfig :=
  List.fold_left (fun configs account => <[name account := account]> configs)
                 config_accounts ∅.
End Config.

(** ** [AccountManager.initializeAccount] *)

(** The synchronous part up to [await client.initialize()]: the [switch]. *)
Definition makeClient (accountConfig : AccountConfig) : Error + ExchangeClient :=
  let '{| name := _; exchange := exchange; accountType := accountType;
          apiKey := apiKey; apiSecret := apiSecret; baseUrl := baseUrl |} := accountConfig in
  if bool_decide (exchange = "binance") then
    if bool_decide (accountType = "futures") then
      inr (BinanceClient FUTURES apiKey apiSecret baseUrl)
    else if bool_decide (accountType = "portfolioMargin") then
      inr (BinanceClient PORTFOLIO_MARGIN apiKey apiSecret baseUrl)
    else inl {| message := "Unsupported Binance account type: " +:+ accountType |}
  else if bool_decide (exchange = "bybit") then
    if bool_decide (accountType = "unified") then
      inr (BybitClient apiKey apiSecret baseUrl)
    else inl {| message := "Unsupported Bybit account type: " +:+ accountType |}
  else inl {| message := "Unsupported exchange: " +:+ exchange |}.

(** [initialize_answer] is how [client.initialize()] settles: [None] when it
    resolves, [Some e] when it rejects with [e].  The result is [None] when
    the returned promise resolves. *)
Definition initializeAccount (accountConfig : AccountConfig)
    (initialize_answer : option Error) (st : State) : option Error * State :=
  match makeClient accountConfig with
  | inl e => (Some e, st)
  | inr client =>
      match initialize_answer with
      | Some e => (Some e, st)
      | None =>
          let n := name accountConfig in
          (None,
           {| exchangeClients := <[n := client]> (exchangeClients st);
              lastFetchTimes := <[n := 0]> (lastFetchTimes st);
              errorCounts := <[n := 0]> (errorCounts st);
              backoffTimes := <[n := 0]> (backoffTimes st);
              cachedData := cachedData st |})
      end
  end.

(** [AccountManager.initializeAllAccounts]: every configured account in
    order, a failure is logged and the loop goes on.  [answers i] settles the
    [initialize()] of the [i]-th account. *)
Fixpoint initializeAllAccounts_from (i : nat) (l : list AccountConfig)
    (answers : nat -> option Error) (st : State) : State :=
  match l with
  | [] => st
  | accountConfig :: l' =>
      initializeAllAccounts_from (S i) l' answers
        (snd (initializeAccount accountConfig (answers i) st))
  end.

Definition initializeAllAccounts (config_accounts : list AccountConfig)
    (answers : nat -> option Error) (st : State) : State :=
  initializeAllAccounts_from 0 config_accounts answers st.

Definition isAccountInitialized (st : State) (accountName : string) : bool :=
  bool_decide (is_Some (exchangeClients st !! accountName)).

Definition getInitializedAccounts (st : State) : list string :=
  (map_to_list (exchangeClients st)).*1.

(** ** [AccountManager.fetchAccountData] *)

(** What one call reads from the outside world: [Date.now()] at the backoff
    check, how the awaited [client.getExchangeData()] settles, and
    [Date.now()] after it settled (read in the [try] body on success, in the
    [catch] handler on failure). *)
Record FetchIO := {
  now_check : Z;
  answer : Error + ExchangeData;
  now_settled : Z
}.

(** [a > b] of JavaScript with [a] read from a dictionary: an absent entry is
    [undefined], and [undefined > b] is [false]. *)
Definition js_gt (a : option Z) (b : Z) : bool :=
  match a with
  | Some x => bool_decide (b < x)
  | None => false
  end.

(** [a || 0] for a number read from a dictionary. *)
Definition js_or0 (a : option Z) : Z := default 0 a.

(** [Math.pow(2, Math.min(errorCount - MAX_CONSECUTIVE_ERRORS, 5))]; only
    evaluated under [errorCount >= MAX_CONSECUTIVE_ERRORS], where the
    exponent is between 0 and 5. *)
Definition backoffTime (errorCount : Z) : Z :=
  INITIAL_BACKOFF * 2 ^ Z.min (errorCount - MAX_CONSECUTIVE_ERRORS) 5.

Definition fetchAccountData (accountName : string) (io : FetchIO) (st : State)
    : option ExchangeData * State * list Event :=
  match exchangeClients st !! accountName with
  | None => (None, st, [LogNoClient accountName])
  | Some client =>
      if js_gt (backoffTimes st !! accountName) (now_check io) then
        (None, st, [LogSkipBackoff accountName])
      else
        match answer io with
        | inr data =>
            (Some data,
             {| exchangeClients := exchangeClients st;
                lastFetchTimes := <[accountName := now_settled io]> (lastFetchTimes st);
                errorCounts := <[accountName := 0]> (errorCounts st);
                backoffTimes := <[accountName := 0]> (backoffTimes st);
                cachedData := cachedData st |},
             [ConnectorCall accountName client (inr data)])
        | inl error =>
            let count := js_or0 (errorCounts st !! accountName) + 1 in
            if bool_decide (MAX_CONSECUTIVE_ERRORS <= count) then
              (None,
               {| exchangeClients := exchangeClients st;
                  lastFetchTimes := lastFetchTimes st;
                  errorCounts := <[accountName := count]> (errorCounts st);
                  backoffTimes :=
                    <[accountName := now_settled io + backoffTime count]> (backoffTimes st);
                  cachedData := cachedData st |},
               [ConnectorCall accountName client (inl error);
                LogFetchError accountName error;
                LogBackingOff accountName (backoffTime count)])
            else
              (None,
               {| exchangeClients := exchangeClients st;
                  lastFetchTimes := lastFetchTimes st;
                  errorCounts := <[accountName := count]> (errorCounts st);
                  backoffTimes := backoffTimes st;
                  cachedData := cachedData st |},
               [ConnectorCall accountName client (inl error);
                LogFetchError accountName error])
        end
  end.

(** ** [AccountManager.getHealthStatus] *)

Record HealthRecord := {
  healthy : bool;
  lastFetch : option Z;            (* epoch ms behind the ISO string, or null *)
  timeSinceLastFetch : option Z;   (* seconds, or null *)
  inBackoff : bool;
  backoffEnds : option Z;          (* epoch ms behind the ISO string, or null *)
  errorCount : Z;
  config : option AccountConfig
}.

(** [Math.round(ms / 1000)] for an integer [ms]: halves round up. *)
Definition round_seconds (ms : Z) : Z := (ms + 500) `div` 1000.

Definition healthOf (config_accounts : list AccountConfig) (now : Z) (st : State)
    (accountName : string) : HealthRecord :=
  let lastFetch := js_or0 (lastFetchTimes st !! accountName) in
  let timeSinceLastFetch := now - lastFetch in
  let isHealthy := bool_decide (0 < lastFetch) && bool_decide (timeSinceLastFetch < 60000) in
  let inBackoff := js_gt (backoffTimes st !! accountName) now in
  {| healthy := isHealthy;
     lastFetch := if bool_decide (lastFetch = 0) then None else Some lastFetch;
     timeSinceLastFetch :=
       if bool_decide (lastFetch = 0) then None else Some (round_seconds timeSinceLastFetch);
     inBackoff := inBackoff;
     backoffEnds := if inBackoff then backoffTimes st !! accountName else None;
     errorCount := js_or0 (errorCounts st !! accountName);
     config := getAccountConfig config_accounts accountName |}.

(** One entry per key of [exchangeClients]. *)
Definition getHealthStatus (config_accounts : list AccountConfig) (now : Z) (st : State)
    : gmap string HealthRecord :=
  map_imap (fun accountName _ => Some (healthOf config_accounts now st accountName))
           (exchangeClients st).

(** ** [dataFetcherService.ts] *)

Definition setAccounts (f : gmap string ExchangeData -> gmap string ExchangeData)
    (c : CombinedData) : CombinedData :=
  {| accounts := f (accounts c); currentAccount := currentAccount c;
     availableAccounts := availableAccounts c; accountConfigs := accountConfigs c |}.

Definition setAccountConfigs (f : gmap string AccountConfig -> gmap string AccountConfig)
    (c : CombinedData) : CombinedData :=
  {| accounts := accounts c; currentAccount := currentAccount c;
     availableAccounts := availableAccounts c; accountConfigs := f (accountConfigs c) |}.

Definition setCachedData (c : CombinedData) (st : State) : State :=
  {| exchangeClients := exchangeClients st; lastFetchTimes := lastFetchTimes st;
     errorCounts := errorCounts st; backoffTimes := backoffTimes st;
     cachedData := c |}.

(** The body of the [for] loop of [fetchAllAccountsData] for one account
    name.  A snapshot is an object, so [if (data)] is the test against
    [null]; nothing in the [try] block throws, so the [catch] is not taken. *)
Definition fetchOneAccount (config_accounts : list AccountConfig)
    (accountName : string) (io : FetchIO) (st : State) : State * list Event :=
  let '(data, st1, evs) := fetchAccountData accountName io st in
  match data with
  | Some d =>
      let c1 := setAccounts (insert accountName d) (cachedData st1) in
      let c2 :=
        match getAccountConfig config_accounts accountName with
        | Some cfg => setAccountConfigs (insert accountName cfg) c1
        | None => c1
        end in
      (setCachedData c2 st1, evs)
  | None => (st1, evs)
  end.

(** The loop over a list of names; [ios i] is what the [i]-th iteration
    reads from the outside world. *)
Fixpoint fetchAccounts_from (config_accounts : list AccountConfig) (i : nat)
    (names : list string) (ios : nat -> FetchIO) (st : State) : State * list Event :=
  match names with
  | [] => (st, [])
  | accountName :: names' =>
      let '(st1, evs1) := fetchOneAccount config_accounts accountName (ios i) st in
      let '(st2, evs2) := fetchAccounts_from config_accounts (S i) names' ios st1 in
      (st2, (evs1 ++ evs2)%list)
  end.

Definition fetchAllAccountsData (config_accounts : list AccountConfig)
    (ios : nat -> FetchIO) (st : State) : State * list Event :=
  fetchAccounts_from config_accounts 0 (getAvailableAccounts config_accounts) ios st.

(** [setCurrentAccount]: [Some e] when it throws [e], with the state it
    leaves behind. *)
Definition setCurrentAccount (accountName : string) (st : State) : option Error * State :=
  if bool_decide (accountName ∈ availableAccounts (cachedData st)) then
    (None, setCachedData
             {| accounts := accounts (cachedData st);
                currentAccount := accountName;
                availableAccounts := availableAccounts (cachedData st);
                accountConfigs := accountConfigs (cachedData st) |} st)
  else (Some {| message := "Invalid account: " +:+ accountName |}, st).

(** [startDataFetcher] up to and including the initial fetch pass; the timer
    it then arms runs [fetchAllAccountsData] again and again. *)
Definition startDataFetcher (config_accounts : list AccountConfig)
    (answers : nat -> option Error) (ios : nat -> FetchIO) (st : State)
    : State * list Event :=
  let st1 := initializeAllAccounts config_accounts answers st in
  let names := getAvailableAccounts config_accounts in
  let c :=
    {| accounts := accounts (cachedData st1);
       currentAccount :=
         match names with
         | first :: _ => first
         | [] => currentAccount (cachedData st1)
         end;
       availableAccounts := names;
       accountConfigs := getAllAccountConfigs config_accounts |} in
  fetchAllAccountsData config_accounts ios (setCachedData c st1).

(** ** Request handlers of [routes/exchange.routes.ts] *)

Inductive ResponseBody :=
  | ErrorBody (error : string)
  | AccountAdded (accountName : string)
  | CurrentSet (accountName : string).

Record Response := { status : Z; body : ResponseBody }.

(** The fields of a JSON request body that the handlers read; [None] is an
    absent field. *)
Record AccountBody := {
  body_name : option string;
  body_exchange : option string;
  body_accountType : option string;
  body_apiKey : option string;
  body_apiSecret : option string;
  body_baseUrl : option string
}.

(** [!x] for an absent field or a string. *)
Definition js_not (x : option string) : bool :=
  match x with
  | None => true
  | Some s => bool_decide (s = "")
  end.

(** [router.post('/accounts', ...)]: the duplicate check looks the name up in
    [config.accounts]. *)
Definition postAccounts (config_accounts : list AccountConfig) (b : AccountBody)
    (initialize_answer : option Error) (st : State) : Response * State :=
  if js_not (body_name b) || js_not (body_exchange b) || js_not (body_accountType b)
     || js_not (body_apiKey b) || js_not (body_apiSecret b) then
    ({| status := 400; body := ErrorBody "Missing required fields" |}, st)
  else
    let n := default "" (body_name b) in
    match getAccountConfig config_accounts n with
    | Some _ =>
        ({| status := 400; body := ErrorBody "Account with this name already exists" |}, st)
    | None =>
        let accountConfig :=
          {| name := n;
             exchange := default "" (body_exchange b);
             accountType := default "" (body_accountType b);
             apiKey := default "" (body_apiKey b);
             apiSecret := default "" (body_apiSecret b);
             baseUrl := body_baseUrl b |} in
        match initializeAccount accountConfig initialize_answer st with
        | (None, st') =>
            ({| status := 200; body := AccountAdded n |}, st')
        | (Some e, st') =>
            ({| status := 500;
                body := ErrorBody ("Failed to initialize account: " +:+ message e) |}, st')
        end
    end.

(** [router.post('/set-current', ...)] *)
Definition postSetCurrent (accountName : option string) (st : State) : Response * State :=
  if js_not accountName then
    ({| status := 400; body := ErrorBody "Account name is required" |}, st)
  else
    let n := default "" accountName in
    match setCurrentAccount n st with
    | (None, st') => ({| status := 200; body := CurrentSet n |}, st')
    | (Some e, st') => ({| status := 400; body := ErrorBody (message e) |}, st')
    end.

(** ** Runs of the service *)

(** The entry points that change state: the start of the data fetcher, a
    timer tick, and the two POST requests. *)
Inductive Op :=
  | Startup (answers : nat -> option Error) (ios : nat -> FetchIO)
  | Tick (ios : nat -> FetchIO)
  | PostAccounts (b : AccountBody) (initialize_answer : option Error)
  | PostSetCurrent (accountName : option string).

Definition step (config_accounts : list AccountConfig) (op : Op) (st : State)
    : State * list Event :=
  match op with
  | Startup answers ios => startDataFetcher config_accounts answers ios st
  | Tick ios => fetchAllAccountsData config_accounts ios st
  | PostAccounts b a => ((postAccounts config_accounts b a st).2, [])
  | PostSetCurrent n => ((postSetCurrent n st).2, [])
  end.

Fixpoint run (config_accounts : list AccountConfig) (ops : list Op) (st : State)
    : State * list Event :=
  match ops with
  | [] => (st, [])
  | op :: ops' =>
      let '(st1, evs1) := step config_accounts op st in
      let '(st2, evs2) := run config_accounts ops' st1 in
      (st2, (evs1 ++ evs2)%list)
  end.

(** The states the service can be in. *)
Definition reachable (config_accounts : list AccountConfig) (st : State) : Prop :=
  exists ops, (run config_accounts ops initialState).1 = st.



(** The connector of [accountName] was called in [evs]. *)
Definition calls_connector (accountName : string) (ev : Event) : bool :=
  match ev with
  | ConnectorCall n _ _ => bool_decide (n = accountName)
  | _ => false
  end.

Definition connector_called (accountName : string) (evs : list Event) : bool :=
  List.existsb (calls_connector accountName) evs.

(** The fetch-tracking record of one account, as the three dictionaries hold
    it. *)
Definition tracking (st : State) (accountName : string) : option Z * option Z * option Z :=
  (lastFetchTimes st !! accountName, errorCounts st !! accountName,
   backoffTimes st !! accountName).


(** ** The object graph behind [cachedData], and [getCachedData]

    [getCachedData] is about object identity: it hands out
    [JSON.parse(JSON.stringify(cachedData))].  For it the cache is a graph of
    mutable objects in a heap.  A location is an index into the heap, a new
    object is put at the end. *)

Abbreviation loc := nat.

Inductive value :=
  | VUndefined
  | VNull
  | VBool (b : bool)
  | VNumber (bits : float64)
  | VString (s : string)
  | VRef (l : loc).

(** A plain object with its own enumerable properties, or an array. *)
Inductive object :=
  | OObject (props : list (string * value))
  | OArray (elems : list value).

Abbreviation heap := (list object).

(** A JSON document.  The text between [JSON.stringify] and [JSON.parse] is
    represented by its syntax tree. *)
#[local] Set Warnings "-register-all".
Inductive json :=
  | JNull
  | JBool (b : bool)
  | JNumber (bits : float64)
  | JString (s : string)
  | JObject (props : list (string * json))
  | JArray (elems : list json).

(** The values an object holds. *)
Definition values_of (o : object) : list value :=
  match o with
  | OObject props => props.*2
  | OArray elems => elems
  end.

(** [NaN] and the infinities have all exponent bits set; they are written as
    [null].  [-0] is written as [0]. *)
Definition is_finite (bits : float64) : bool :=
  negb (Z.eqb (Z.land (Z.shiftr bits 52) 2047) 2047).

Definition written_number (bits : float64) : json :=
  if is_finite bits then JNumber (if Z.eqb bits (2 ^ 63) then 0 else bits) else JNull.

(** The properties of an object: one whose value is [undefined] is left
    out.  [None] when a value cannot be written. *)
Fixpoint stringify_props (rec : value -> option (option json))
    (props : list (string * value)) : option (list (string * json)) :=
  match props with
  | [] => Some []
  | (k, v) :: props' =>
      match rec v, stringify_props rec props' with
      | Some (Some j), Some r => Some ((k, j) :: r)
      | Some None, Some r => Some r
      | _, _ => None
      end
  end.

(** The elements of an array: [undefined] is written as [null]. *)
Fixpoint stringify_elems (rec : value -> option (option json))
    (elems : list value) : option (list json) :=
  match elems with
  | [] => Some []
  | v :: elems' =>
      match rec v, stringify_elems rec elems' with
      | Some (Some j), Some r => Some (j :: r)
      | Some None, Some r => Some (JNull :: r)
      | _, _ => None
      end
  end.

(** [JSON.stringify] on the graph below [v].  The outer [None] is the
    [TypeError] on a cyclic structure: [fuel] bounds the nesting depth, and
    no amount of it gets through a cycle.  [Some None] is the result
    [undefined]. *)
Fixpoint stringify (fuel : nat) (h : heap) (v : value) : option (option json) :=
  match v with
  | VUndefined => Some None
  | VNull => Some (Some JNull)
  | VBool b => Some (Some (JBool b))
  | VNumber bits => Some (Some (written_number bits))
  | VString s => Some (Some (JString s))
  | VRef l =>
      match fuel with
      | O => None
      | S fuel' =>
          match h !! l with
          | Some (OObject props) =>
              match stringify_props (stringify fuel' h) props with
              | Some r => Some (Some (JObject r))
              | None => None
              end
          | Some (OArray elems) =>
              match stringify_elems (stringify fuel' h) elems with
              | Some r => Some (Some (JArray r))
              | None => None
              end
          | None => None
          end
      end
  end.

(** [JSON.parse]: every object and array of the document is a new object at
    the end of the heap. *)
Fixpoint parse (j : json) (h : heap) : value * heap :=
  match j with
  | JNull => (VNull, h)
  | JBool b => (VBool b, h)
  | JNumber bits => (VNumber bits, h)
  | JString s => (VString s, h)
  | JObject props =>
      let '(props', h1) :=
        (fix parse_props (ps : list (string * json)) (h : heap) :=
           match ps with
           | [] => ([], h)
           | (k, j') :: ps' =>
               let '(v, h1) := parse j' h in
               let '(r, h2) := parse_props ps' h1 in
               ((k, v) :: r, h2)
           end) props h in
      (VRef (length h1), (h1 ++ [OObject props'])%list)
  | JArray elems =>
      let '(elems', h1) :=
        (fix parse_elems (js : list json) (h : heap) :=
           match js with
           | [] => ([], h)
           | j' :: js' =>
               let '(v, h1) := parse j' h in
               let '(r, h2) := parse_elems js' h1 in
               (v :: r, h2)
           end) elems h in
      (VRef (length h1), (h1 ++ [OArray elems'])%list)
  end.

(** The two loops of [parse], by name. *)
Definition parse_props : list (string * json) -> heap -> list (string * value) * heap :=
  fix parse_props (ps : list (string * json)) (h : heap) :=
    match ps with
    | [] => ([], h)
    | (k, j') :: ps' =>
        let '(v, h1) := parse j' h in
        let '(r, h2) := parse_props ps' h1 in
        ((k, v) :: r, h2)
    end.

Definition parse_elems : list json -> heap -> list value * heap :=
  fix parse_elems (js : list json) (h : heap) :=
    match js with
    | [] => ([], h)
    | j' :: js' =>
        let '(v, h1) := parse j' h in
        let '(r, h2) := parse_elems js' h1 in
        (v :: r, h2)
    end.

(** [o[k] = v] on the properties of an object: the property keeps its place
    when it exists and is added at the end otherwise. *)
Fixpoint assign (k : string) (v : value) (props : list (string * value))
    : list (string * value) :=
  match props with
  | [] => [(k, v)]
  | (k', v') :: props' =>
      if bool_decide (k' = k) then (k, v) :: props' else (k', v') :: assign k v props'
  end.

(** [target.k = v] for a target that is a plain object. *)
Definition set_property (target : value) (k : string) (v : value) (h : heap) : heap :=
  match target with
  | VRef l =>
      match h !! l with
      | Some (OObject props) => <[l := OObject (assign k v props)]> h
      | _ => h
      end
  | _ => h
  end.

(** [JSON.parse(JSON.stringify(cachedData))], with [cachedData] the
    location of the cache object.  [None] when [JSON.stringify] throws; the
    cache is an object, so its document is never [undefined]. *)
Definition deepCopy (fuel : nat) (cachedData : loc) (h : heap) : option (value * heap) :=
  match stringify fuel h (VRef cachedData) with
  | Some (Some j) => Some (parse j h)
  | _ => None
  end.

(** [getCachedData]; [lastUpdate] is the string [new Date().toISOString()]
    gives. *)
Definition getCachedData (fuel : nat) (cachedData : loc) (lastUpdate : string)
    (h : heap) : option (value * heap) :=
  match deepCopy fuel cachedData h with
  | Some (data, h1) =>
      Some (data, set_property data "lastUpdate" (VString lastUpdate) h1)
  | None => None
  end.

(** References at or above [n]. *)
Definition value_ge (n : nat) (v : value) : Prop :=
  match v with
  | VRef l => (n <= l)%nat
  | _ => True
  end.

Definition refs_ge (n : nat) (o : object) : Prop := Forall (value_ge n) (values_of o).





(** A heap without cycles and without dangling references: [rank] goes down
    along every reference. *)
Definition acyclic (h : heap) (rank : loc -> nat) : Prop :=
  forall l o l', h !! l = Some o -> VRef l' ∈ values_of o ->
                 (l' < length h)%nat /\ (rank l' < rank l)%nat.

(** Induction on documents, with the hypothesis for every member. *)
Section json_induction.
Variable P : json -> Prop.
Hypothesis HNull : P JNull.
Hypothesis HBool : forall b, P (JBool b).
Hypothesis HNumber : forall bits, P (JNumber bits).
Hypothesis HString : forall s, P (JString s).
Hypothesis HObject : forall props, Forall (fun kj => P kj.2) props -> P (JObject props).
Hypothesis HArray : forall elems, Forall P elems -> P (JArray elems).

Fixpoint json_members_ind (j : json) : P j :=
  match j with
  | JNull => HNull
  | JBool b => HBool b
  | JNumber bits => HNumber bits
  | JString s => HString s
  | JObject props =>
      HObject props
        ((fix go (ps : list (string * json)) : Forall (fun kj => P kj.2) ps :=
            match ps with
            | [] => List.Forall_nil _
            | (k, j') :: ps' =>
                List.Forall_cons _ (k, j') ps' (json_members_ind j') (go ps')
            end) props)
  | JArray elems =>
      HArray elems
        ((fix go (js : list json) : Forall P js :=
            match js with
            | [] => List.Forall_nil _
            | j' :: js' => List.Forall_cons _ j' js' (json_members_ind j') (go js')
            end) elems)
  end.
End json_induction.

(** What [parse] does to a heap: it keeps it and adds objects that refer to
    added objects only. *)
Definition adds_fresh (h : heap) (r : value * heap) : Prop :=
  exists new, r.2 = (h ++ new)%list /\
              Forall (refs_ge (length h)) new /\
              value_ge (length h) r.1.




(** ** Invariant of the tracking dictionaries *)

(** Every account that has a connector has its three tracking entries, an
    error count that is not negative, and no backoff while the count is
    below the threshold. *)
Definition tracking_ok (st : State) : Prop :=
  forall n, is_Some (exchangeClients st !! n) ->
    exists t e b, tracking st n = (Some t, Some e, Some b) /\
                  0 <= e /\ (e < MAX_CONSECUTIVE_ERRORS -> b = 0).

(** ** Sample data for the examples *)

Definition sampleConfig (n ex ty : string) : AccountConfig :=
  {| name := n; exchange := ex; accountType := ty;
     apiKey := "key-" +:+ n; apiSecret := "secret-" +:+ n; baseUrl := None |}.

Definition sampleAccounts : list AccountConfig :=
  [sampleConfig "A" "binance" "futures"; sampleConfig "B" "bybit" "unified"].

Definition sampleSnapshot (n : string) (balance : float64) : ExchangeData :=
  {| positions := [];
     accountSummary :=
       {| sum_exchange := "binance"; sum_accountName := n; sum_accountType := "futures";
          baseCurrency := "USDT"; baseBalance := balance; totalNotionalValue := 0;
          accountLeverage := 0; openPositionsCount := 0; openOrdersCount := 0;
          liquidationBuffer := 0; accountMarginRatio := 0 |} |}.

Definition resolves (t : Z) (d : ExchangeData) : FetchIO :=
  {| now_check := t; answer := inr d; now_settled := t + 1 |}.

Definition rejects (t : Z) : FetchIO :=
  {| now_check := t; answer := inl {| message := "ETIMEDOUT" |}; now_settled := t + 1 |}.

Definition sampleBody (n ex ty key : string) : AccountBody :=
  {| body_name := Some n; body_exchange := Some ex; body_accountType := Some ty;
     body_apiKey := Some key; body_apiSecret := Some "secret"; body_baseUrl := None |}.

(** Both sample accounts initialised and fetched once at time 1000. *)
Definition sampleStartedOps : list Op :=
  [Startup (fun _ => None) (fun _ => resolves 1000 (sampleSnapshot "A" 1))].

Definition sampleStarted : State :=
  (run sampleAccounts sampleStartedOps initialState).1.

(** ... and then five passes in which every fetch fails. *)
Definition sampleFailingOps : list Op :=
  [Startup (fun _ => None) (fun _ => resolves 1000 (sampleSnapshot "A" 1));
   Tick (fun _ => rejects 1100); Tick (fun _ => rejects 1200);
   Tick (fun _ => rejects 1300); Tick (fun _ => rejects 1400);
   Tick (fun _ => rejects 1500)].

Definition sampleFailing : State :=
  (run sampleAccounts sampleFailingOps initialState).1.

(** A cache with one fetched account, as a heap: the snapshot of "A" (0) with
    its positions (1) and summary (2), [accounts] (3), [availableAccounts]
    (4), the configuration of "A" (5), [accountConfigs] (6), and the cache
    object itself (7). *)
Definition sampleHeap : heap :=
  [ OObject [("positions", VRef 1%nat); ("accountSummary", VRef 2%nat)];
    OArray [];
    OObject [("exchange", VString "binance"); ("accountName", VString "A");
             ("baseBalance", VNumber 4607182418800017408)];
    OObject [("A", VRef 0%nat)];
    OArray [VString "A"; VString "B"];
    OObject [("name", VString "A"); ("exchange", VString "binance");
             ("baseUrl", VUndefined)];
    OObject [("A", VRef 5%nat)];
    OObject [("accounts", VRef 3%nat); ("currentAccount", VString "A");
             ("availableAccounts", VRef 4%nat); ("accountConfigs", VRef 6%nat)] ].

Definition sampleCacheLoc : loc := 7%nat.

(** ** Readings of a run used by the further properties *)



(** [o[k]] on the properties of an object: [undefined] when there is none. *)
Fixpoint get_property (k : string) (props : list (string * value)) : value :=
  match props with
  | [] => VUndefined
  | (k', v) :: props' => if bool_decide (k' = k) then v else get_property k props'
  end.

(** A value that JSON can carry: not [undefined], and a number only when it
    is finite and not [-0]. *)
Definition json_value (v : value) : Prop :=
  match v with
  | VUndefined => False
  | VNumber bits => is_finite bits = true /\ bits <> 2 ^ 63
  | _ => True
  end.

(** How often the connector of [accountName] is called in [evs]. *)
Definition connector_calls (accountName : string) (evs : list Event) : nat :=
  length (List.filter (calls_connector accountName) evs).

(** How often [accountName] occurs in a list of names. *)
Definition occurrences (accountName : string) (names : list string) : nat :=
  length (List.filter (fun a => bool_decide (a = accountName)) names).

(** Every cached snapshot belongs to a configured account with a connector. *)
Definition cache_of_configured (cfg : list AccountConfig) (st : State) : Prop :=
  forall n, is_Some (accounts (cachedData st) !! n) ->
    n ∈ getAvailableAccounts cfg /\ is_Some (exchangeClients st !! n).

(** What a document parses to when all its members do. *)
Definition tidy (j : json) : Prop :=
  forall h, exists new,
    (parse j h).2 = h ++ new /\
    Forall (fun o => Forall json_value (values_of o)) new /\
    json_value (parse j h).1.
(** * Properties *)

(** ** The four outcomes of [fetchAccountData] *)

Lemma fetchAccountData_no_client n io st :
  exchangeClients st !! n = None ->
  fetchAccountData n io st = (None, st, [LogNoClient n]).
Proof. intros H. unfold fetchAccountData. by rewrite H. Qed.

Lemma fetchAccountData_skip n io st client :
  exchangeClients st !! n = Some client ->
  js_gt (backoffTimes st !! n) (now_check io) = true ->
  fetchAccountData n io st = (None, st, [LogSkipBackoff n]).
Proof. intros H1 H2. unfold fetchAccountData. by rewrite H1, H2. Qed.


Lemma fetchAccountData_rejected n io st client error :
  exchangeClients st !! n = Some client ->
  js_gt (backoffTimes st !! n) (now_check io) = false ->
  answer io = inl error ->
  let count := js_or0 (errorCounts st !! n) + 1 in
  exists evs,
  fetchAccountData n io st =
    (None,
     {| exchangeClients := exchangeClients st;
        lastFetchTimes := lastFetchTimes st;
        errorCounts := <[n := count]> (errorCounts st);
        backoffTimes :=
          if bool_decide (MAX_CONSECUTIVE_ERRORS <= count)
          then <[n := now_settled io + backoffTime count]> (backoffTimes st)
          else backoffTimes st;
        cachedData := cachedData st |},
     ConnectorCall n client (inl error) :: evs).
Proof.
  intros H1 H2 H3 count. unfold fetchAccountData. rewrite H1, H2, H3.
  fold count. case_bool_decide; eauto.
Qed.

(** [fetchAccountData] never touches the registry of connectors nor the
    cache, and of the tracking dictionaries only the entry of its account. *)
Lemma fetchAccountData_frame n io st :
  let st' := (fetchAccountData n io st).1.2 in
  exchangeClients st' = exchangeClients st /\
  cachedData st' = cachedData st /\
  forall m, m <> n -> tracking st' m = tracking st m.
Proof.
  unfold fetchAccountData, tracking.
  destruct (exchangeClients st !! n); [|done].
  destruct (js_gt _ _); [done|].
  destruct (answer io); [case_bool_decide|]; simpl;
    (split; [done|split; [done|]]); intros m Hm;
    by rewrite ?lookup_insert_ne.
Qed.

Lemma fetchAccountData_returns n io st data :
  (fetchAccountData n io st).1.1 = Some data <->
  is_Some (exchangeClients st !! n) /\
  js_gt (backoffTimes st !! n) (now_check io) = false /\
  answer io = inr data.
Proof.
  unfold fetchAccountData.
  destruct (exchangeClients st !! n) as [c|].
  2:{ simpl. split; [done|]. intros [[? ?] _]. done. }
  destruct (js_gt _ _).
  { simpl. split; [done|]. intros (_ & ? & _). done. }
  destruct (answer io) as [e|d]; [case_bool_decide|]; simpl.
  - split; [done|]. intros (_ & _ & ?). done.
  - split; [done|]. intros (_ & _ & ?). done.
  - split.
    + intros [= ->]. eauto.
    + intros (_ & _ & [= ->]). done.
Qed.

(** ** The loop body [fetchOneAccount] *)

Lemma fetchOneAccount_clients cfg n io st :
  exchangeClients (fetchOneAccount cfg n io st).1 = exchangeClients st.
Proof.
  unfold fetchOneAccount.
  pose proof (fetchAccountData_frame n io st) as (H & _ & _).
  destruct (fetchAccountData n io st) as [[[d|] st1] evs]; simpl in *; [|done].
  by destruct (getAccountConfig cfg n).
Qed.

Lemma fetchOneAccount_tracking cfg n io st m :
  tracking (fetchOneAccount cfg n io st).1 m = tracking (fetchAccountData n io st).1.2 m.
Proof.
  unfold fetchOneAccount.
  destruct (fetchAccountData n io st) as [[[d|] st1] evs]; simpl; [|done].
  by destruct (getAccountConfig cfg n).
Qed.

Lemma fetchOneAccount_events cfg n io st :
  (fetchOneAccount cfg n io st).2 = (fetchAccountData n io st).2.
Proof.
  unfold fetchOneAccount.
  by destruct (fetchAccountData n io st) as [[[d|] st1] evs].
Qed.

(** The cache after one iteration: the snapshot that was returned, if one
    was, under the name of the account; every other entry as before. *)
Lemma fetchOneAccount_accounts cfg n io st :
  accounts (cachedData (fetchOneAccount cfg n io st).1) =
    match (fetchAccountData n io st).1.1 with
    | Some d => <[n := d]> (accounts (cachedData st))
    | None => accounts (cachedData st)
    end.
Proof.
  unfold fetchOneAccount.
  pose proof (fetchAccountData_frame n io st) as (_ & H & _).
  destruct (fetchAccountData n io st) as [[[d|] st1] evs]; simpl in *.
  - destruct (getAccountConfig cfg n); simpl; by rewrite H.
  - by rewrite H.
Qed.

Lemma fetchOneAccount_selection cfg n io st :
  currentAccount (cachedData (fetchOneAccount cfg n io st).1) = currentAccount (cachedData st) /\
  availableAccounts (cachedData (fetchOneAccount cfg n io st).1)
    = availableAccounts (cachedData st).
Proof.
  unfold fetchOneAccount.
  pose proof (fetchAccountData_frame n io st) as (_ & H & _).
  destruct (fetchAccountData n io st) as [[[d|] st1] evs]; simpl in *.
  - destruct (getAccountConfig cfg n); simpl; by rewrite H.
  - by rewrite H.
Qed.

Lemma fetchOneAccount_frame cfg n io st m :
  m <> n ->
  tracking (fetchOneAccount cfg n io st).1 m = tracking st m /\
  accounts (cachedData (fetchOneAccount cfg n io st).1) !! m = accounts (cachedData st) !! m.
Proof.
  intros Hm. split.
  - rewrite fetchOneAccount_tracking.
    by apply (fetchAccountData_frame n io st).
  - rewrite fetchOneAccount_accounts.
    destruct ((fetchAccountData n io st).1.1); [|done].
    by rewrite lookup_insert_ne.
Qed.

(** The connector is called exactly when the account has one and is not in
    backoff, and only the connector of the account that is fetched. *)
Lemma fetchAccountData_calls n io st m :
  connector_called m (fetchAccountData n io st).2 = true <->
  m = n /\ is_Some (exchangeClients st !! n) /\
  js_gt (backoffTimes st !! n) (now_check io) = false.
Proof.
  unfold fetchAccountData, connector_called.
  destruct (exchangeClients st !! n) as [c|]; simpl.
  2:{ split; [done|]. intros (_ & [? ?] & _). done. }
  destruct (js_gt _ _); simpl.
  { split; [done|]. intros (_ & _ & ?). done. }
  destruct (answer io); [case_bool_decide|]; simpl;
    rewrite ?orb_false_r; rewrite bool_decide_eq_true;
    (split; [intros ->; eauto | by intros [-> _]]).
Qed.

Lemma connector_called_app n evs1 evs2 :
  connector_called n (evs1 ++ evs2) = connector_called n evs1 || connector_called n evs2.
Proof. apply existsb_app. Qed.

(** ** Passes over accounts without a connector *)



(** ** A single fetch *)


(** C3. While [backoffTimes[name] > Date.now()], a fetch attempt returns
    [null], calls no connector, and leaves the whole state, the tracking
    dictionaries and the cache included, as it was. *)
Theorem C3_backoff_skips_fetch cfg n io st b :
  backoffTimes st !! n = Some b ->
  now_check io < b ->
  (fetchAccountData n io st).1 = (None, st) /\
  (fetchOneAccount cfg n io st).1 = st /\
  (forall m, connector_called m (fetchOneAccount cfg n io st).2 = false) /\
  tracking (fetchOneAccount cfg n io st).1 n = tracking st n /\
  accounts (cachedData (fetchOneAccount cfg n io st).1) !! n = accounts (cachedData st) !! n.
Proof.
  intros Hb Hlt.
  assert (Hgt : js_gt (backoffTimes st !! n) (now_check io) = true).
  { rewrite Hb. simpl. by apply bool_decide_eq_true. }
  assert (H : (fetchAccountData n io st).1 = (None, st)).
  { destruct (exchangeClients st !! n) as [c|] eqn:Hc.
    - by rewrite (fetchAccountData_skip n io st c).
    - by rewrite fetchAccountData_no_client. }
  assert (H' : (fetchOneAccount cfg n io st).1 = st).
  { unfold fetchOneAccount.
    destruct (fetchAccountData n io st) as [[d st1] evs]. simpl in H.
    by injection H as -> ->. }
  split; [done|]. split; [done|]. split.
  - intros m. rewrite fetchOneAccount_events.
    apply not_true_is_false. rewrite fetchAccountData_calls.
    intros (_ & _ & Hf). congruence.
  - by rewrite H'.
Qed.

Lemma C3_backoff_skips_fetch_witness :
  let st := {| exchangeClients := {[ "A" := BybitClient "k" "s" None ]};
               lastFetchTimes := {[ "A" := 10 ]};
               errorCounts := {[ "A" := 5 ]};
               backoffTimes := {[ "A" := 30100 ]};
               cachedData := initialCache |} in
  let io := {| now_check := 200; answer := inl {| message := "down" |};
               now_settled := 300 |} in
  (fetchOneAccount [] "A" io st).1 = st.
Proof.
  intros st io.
  apply (C3_backoff_skips_fetch [] "A" io st 30100); [reflexivity | simpl; lia].
Defined.


(** ** The tracking invariant holds in every reachable state *)

Lemma tracking_ok_ext st st' :
  exchangeClients st' = exchangeClients st ->
  (forall n, tracking st' n = tracking st n) ->
  tracking_ok st -> tracking_ok st'.
Proof.
  intros Hc Ht Hok n Hn. rewrite Hc in Hn. rewrite Ht. by apply Hok.
Qed.

Lemma tracking_ok_initial : tracking_ok initialState.
Proof. intros n [c Hc]. simpl in Hc. by rewrite lookup_empty in Hc. Qed.

Lemma tracking_ok_setCachedData c st : tracking_ok st -> tracking_ok (setCachedData c st).
Proof. by apply tracking_ok_ext. Qed.

Lemma initializeAccount_tracking_ok accountConfig a st :
  tracking_ok st -> tracking_ok (initializeAccount accountConfig a st).2.
Proof.
  intros Hok. unfold initializeAccount.
  destruct (makeClient accountConfig); [done|].
  destruct a; [done|]. simpl.
  intros n Hn. simpl in Hn. unfold tracking. simpl.
  destruct (decide (name accountConfig = n)) as [->|Hne].
  - rewrite !lookup_insert_eq. exists 0, 0, 0. unfold MAX_CONSECUTIVE_ERRORS. done.
  - rewrite lookup_insert_ne in Hn by done. rewrite !lookup_insert_ne by done.
    by apply Hok.
Qed.

Lemma initializeAllAccounts_from_tracking_ok l : forall i answers st,
  tracking_ok st -> tracking_ok (initializeAllAccounts_from i l answers st).
Proof.
  induction l as [|a l IH]; intros i answers st Hok; simpl; [done|].
  apply IH. by apply initializeAccount_tracking_ok.
Qed.

Lemma fetchAccountData_tracking_ok n io st :
  tracking_ok st -> tracking_ok (fetchAccountData n io st).1.2.
Proof.
  intros Hok m Hm.
  pose proof (fetchAccountData_frame n io st) as (Hc & _ & Hfr).
  simpl in Hc, Hfr. rewrite Hc in Hm.
  destruct (decide (m = n)) as [->|Hne]; [|rewrite Hfr by done; by apply Hok].
  destruct (Hok n Hm) as (t & e & b & Htr & He & Hb).
  unfold tracking in Htr. injection Htr as Ht Hec Hbo.
  destruct Hm as [c Hcl].
  unfold fetchAccountData, tracking. rewrite Hcl.
  destruct (js_gt _ _); simpl.
  { exists t, e, b. by rewrite Ht, Hec, Hbo. }
  destruct (answer io); [case_bool_decide as Hcount|]; simpl;
    rewrite ?lookup_insert_eq, ?Hec in *; simpl in *.
  - eexists _, _, _. split; [by rewrite Ht|]. split; [lia|]. intros; lia.
  - eexists _, _, _. split; [by rewrite Ht, Hbo|]. split; [lia|].
    intros _. apply Hb. lia.
  - eexists _, _, _. split; [done|]. unfold MAX_CONSECUTIVE_ERRORS. done.
Qed.

Lemma fetchOneAccount_tracking_ok cfg n io st :
  tracking_ok st -> tracking_ok (fetchOneAccount cfg n io st).1.
Proof.
  intros Hok.
  apply (tracking_ok_ext (fetchAccountData n io st).1.2).
  - rewrite fetchOneAccount_clients.
    symmetry. apply (fetchAccountData_frame n io st).
  - intros m. apply fetchOneAccount_tracking.
  - by apply fetchAccountData_tracking_ok.
Qed.

Lemma fetchAccounts_from_tracking_ok cfg names : forall i ios st,
  tracking_ok st -> tracking_ok (fetchAccounts_from cfg i names ios st).1.
Proof.
  induction names as [|a names IH]; intros i ios st Hok; simpl; [done|].
  pose proof (fetchOneAccount_tracking_ok cfg a (ios i) st Hok) as H1.
  destruct (fetchOneAccount cfg a (ios i) st) as [st1 evs1]. simpl in H1.
  specialize (IH (S i) ios st1 H1).
  by destruct (fetchAccounts_from cfg (S i) names ios st1).
Qed.

Lemma postAccounts_tracking_ok cfg b a st :
  tracking_ok st -> tracking_ok (postAccounts cfg b a st).2.
Proof.
  intros Hok. unfold postAccounts.
  destruct (_ || _); [done|].
  destruct (getAccountConfig cfg _); [done|].
  match goal with |- context [initializeAccount ?c a st] =>
    pose proof (initializeAccount_tracking_ok c a st Hok) as H;
    destruct (initializeAccount c a st) as [[e|] st'] end; done.
Qed.

Lemma postSetCurrent_tracking_ok n st :
  tracking_ok st -> tracking_ok (postSetCurrent n st).2.
Proof.
  intros Hok. unfold postSetCurrent, setCurrentAccount.
  destruct (js_not n); [done|].
  case_bool_decide; [|done]. simpl. by apply tracking_ok_setCachedData.
Qed.

Lemma step_tracking_ok cfg op st :
  tracking_ok st -> tracking_ok (step cfg op st).1.
Proof.
  intros Hok. destruct op; simpl.
  - unfold startDataFetcher, fetchAllAccountsData.
    apply fetchAccounts_from_tracking_ok, tracking_ok_setCachedData.
    by apply initializeAllAccounts_from_tracking_ok.
  - by apply fetchAccounts_from_tracking_ok.
  - by apply postAccounts_tracking_ok.
  - by apply postSetCurrent_tracking_ok.
Qed.

Lemma run_tracking_ok cfg ops : forall st,
  tracking_ok st -> tracking_ok (run cfg ops st).1.
Proof.
  induction ops as [|op ops IH]; intros st Hok; simpl; [done|].
  pose proof (step_tracking_ok cfg op st Hok) as H1.
  destruct (step cfg op st) as [st1 evs1]. simpl in H1.
  specialize (IH st1 H1). by destruct (run cfg ops st1).
Qed.

Lemma reachable_tracking_ok cfg st : reachable cfg st -> tracking_ok st.
Proof. intros [ops <-]. apply run_tracking_ok, tracking_ok_initial. Qed.





(** ** The cache holds the latest good snapshot *)





Lemma initializeAccount_cachedData accountConfig a st :
  cachedData (initializeAccount accountConfig a st).2 = cachedData st.
Proof.
  unfold initializeAccount.
  destruct (makeClient accountConfig); [done|]. by destruct a.
Qed.

Lemma initializeAllAccounts_from_cachedData l : forall i answers st,
  cachedData (initializeAllAccounts_from i l answers st) = cachedData st.
Proof.
  induction l as [|a l IH]; intros i answers st; simpl; [done|].
  by rewrite IH, initializeAccount_cachedData.
Qed.

Lemma postAccounts_cachedData cfg b a st :
  cachedData (postAccounts cfg b a st).2 = cachedData st.
Proof.
  unfold postAccounts.
  destruct (_ || _); [done|].
  destruct (getAccountConfig cfg _); [done|].
  match goal with |- context [initializeAccount ?c a st] =>
    pose proof (initializeAccount_cachedData c a st) as H;
    destruct (initializeAccount c a st) as [[e|] st'] end; done.
Qed.

Lemma postSetCurrent_accounts n st :
  accounts (cachedData (postSetCurrent n st).2) = accounts (cachedData st).
Proof.
  unfold postSetCurrent, setCurrentAccount.
  destruct (js_not n); [done|]. by case_bool_decide.
Qed.




(** ** One account's fetch does not depend on, nor change, another's *)

(** What an iteration does to its account is decided by that account's
    connector, tracking entries and cache entry alone. *)
Lemma fetchAccountData_local n io st1 st2 :
  exchangeClients st1 !! n = exchangeClients st2 !! n ->
  tracking st1 n = tracking st2 n ->
  (fetchAccountData n io st1).1.1 = (fetchAccountData n io st2).1.1 /\
  (fetchAccountData n io st1).2 = (fetchAccountData n io st2).2 /\
  tracking (fetchAccountData n io st1).1.2 n = tracking (fetchAccountData n io st2).1.2 n.
Proof.
  intros Hc Ht. unfold tracking in Ht. injection Ht as Hl He Hb.
  unfold fetchAccountData, tracking. rewrite Hc, Hb, He.
  destruct (exchangeClients st2 !! n); simpl; [|by rewrite Hl, He, Hb].
  destruct (js_gt _ _); simpl; [by rewrite Hl, He, Hb|].
  destruct (answer io); [case_bool_decide|]; simpl;
    by rewrite ?lookup_insert_eq, ?Hl, ?Hb.
Qed.






(** ** Health report *)

Lemma getHealthStatus_lookup cfg now st n :
  getHealthStatus cfg now st !! n =
    match exchangeClients st !! n with
    | Some _ => Some (healthOf cfg now st n)
    | None => None
    end.
Proof.
  unfold getHealthStatus. rewrite map_lookup_imap.
  by destruct (exchangeClients st !! n).
Qed.

Lemma js_gt_true a b : js_gt a b = true <-> exists x, a = Some x /\ b < x.
Proof.
  destruct a as [x|]; simpl.
  - rewrite bool_decide_eq_true. split.
    + intros H. by exists x.
    + by intros (y & [= <-] & H).
  - split; [done|]. by intros (y & ? & _).
Qed.

(** C4, as the code has it.  The report has one record per account with a
    connector.  [healthy] is true exactly when a fetch has succeeded and the
    latest success is less than 60000 ms old; it does not look at the
    backoff, which the record reports on its own as [inBackoff], true exactly
    when [backoffTimes[name] > now]. *)
Theorem C4_healthy_is_recency_only cfg now st n r :
  getHealthStatus cfg now st !! n = Some r ->
  is_Some (exchangeClients st !! n) /\
  (healthy r = true <->
     0 < js_or0 (lastFetchTimes st !! n) /\ now - js_or0 (lastFetchTimes st !! n) < 60000) /\
  (inBackoff r = true <-> exists b, backoffTimes st !! n = Some b /\ now < b) /\
  errorCount r = js_or0 (errorCounts st !! n).
Proof.
  rewrite getHealthStatus_lookup.
  destruct (exchangeClients st !! n) as [c|]; [|done].
  intros [= <-]. split; [by eexists|]. simpl. split; [|split; [|done]].
  - rewrite andb_true_iff, !bool_decide_eq_true. done.
  - apply js_gt_true.
Qed.

Lemma C4_healthy_is_recency_only_witness :
  exists r, getHealthStatus sampleAccounts 2000 sampleStarted !! "A" = Some r /\
            healthy r = true /\ inBackoff r = false.
Proof.
  exists (healthOf sampleAccounts 2000 sampleStarted "A").
  assert (H : getHealthStatus sampleAccounts 2000 sampleStarted !! "A"
              = Some (healthOf sampleAccounts 2000 sampleStarted "A")) by reflexivity.
  split; [exact H|].
  destruct (C4_healthy_is_recency_only sampleAccounts 2000 sampleStarted "A" _ H)
    as (_ & Hh & _).
  split; [apply Hh; split; reflexivity | reflexivity].
Defined.

(** C4 as stated fails: in [sampleFailing] the account "A" was fetched at
    1001, then failed five times in a row (the timer callbacks are [async]
    and are not awaited by the timer, so passes can run back to back), which
    put it in backoff until 31501.  At 2000 its record says both
    [healthy = true] and [inBackoff = true]. *)
Lemma C4_healthy_while_in_backoff :
  reachable sampleAccounts sampleFailing /\
  tracking sampleFailing "A" = (Some 1001, Some 5, Some 31501) /\
  ~ (forall r, getHealthStatus sampleAccounts 2000 sampleFailing !! "A" = Some r ->
       (healthy r = true <->
          0 < js_or0 (lastFetchTimes sampleFailing !! "A") /\
          2000 - js_or0 (lastFetchTimes sampleFailing !! "A") < 60000 /\
          js_gt (backoffTimes sampleFailing !! "A") 2000 = false)).
Proof.
  split; [|split].
  - by exists sampleFailingOps.
  - reflexivity.
  - intros H.
    specialize (H (healthOf sampleAccounts 2000 sampleFailing "A") eq_refl).
    destruct H as [H _].
    assert (Hh : healthy (healthOf sampleAccounts 2000 sampleFailing "A") = true)
      by reflexivity.
    destruct (H Hh) as (_ & _ & Hb). vm_compute in Hb. discriminate.
Qed.

(** ** Registration *)

(** What the duplicate check of [POST /accounts] does catch: a name of
    [config.accounts] is refused and nothing changes. *)
Lemma postAccounts_configured_name cfg b a st c :
  js_not (body_name b) || js_not (body_exchange b) || js_not (body_accountType b)
    || js_not (body_apiKey b) || js_not (body_apiSecret b) = false ->
  getAccountConfig cfg (default "" (body_name b)) = Some c ->
  postAccounts cfg b a st =
    ({| status := 400; body := ErrorBody "Account with this name already exists" |}, st).
Proof. intros H1 H2. unfold postAccounts. by rewrite H1, H2. Qed.

(** [initializeAccount] adds nothing to [config.accounts], so an account
    added through the handler is not seen by the handler's own check. *)
Lemma postAccounts_unconfigured_name cfg b st :
  js_not (body_name b) || js_not (body_exchange b) || js_not (body_accountType b)
    || js_not (body_apiKey b) || js_not (body_apiSecret b) = false ->
  getAccountConfig cfg (default "" (body_name b)) = None ->
  forall client,
  makeClient {| name := default "" (body_name b);
                exchange := default "" (body_exchange b);
                accountType := default "" (body_accountType b);
                apiKey := default "" (body_apiKey b);
                apiSecret := default "" (body_apiSecret b);
                baseUrl := body_baseUrl b |} = inr client ->
  (postAccounts cfg b None st).1 = {| status := 200; body := AccountAdded (default "" (body_name b)) |} /\
  exchangeClients (postAccounts cfg b None st).2 !! default "" (body_name b) = Some client /\
  tracking (postAccounts cfg b None st).2 (default "" (body_name b)) = (Some 0, Some 0, Some 0).
Proof.
  intros H1 H2 client Hm. unfold postAccounts, initializeAccount.
  rewrite H1, H2, Hm. simpl. unfold tracking. simpl.
  by rewrite !lookup_insert_eq.
Qed.

(** C5, the code at the failing input.  "X" is not a configured name.  A
    first [POST /accounts] registers it with a Binance connector; a second
    one with the same name is answered with success as well and replaces
    the connector of "X" by a Bybit one with other credentials. *)
Theorem C5_second_registration_replaces_connector :
  let b1 := sampleBody "X" "binance" "futures" "key-1" in
  let b2 := sampleBody "X" "bybit" "unified" "key-2" in
  let r1 := postAccounts sampleAccounts b1 None sampleStarted in
  let r2 := postAccounts sampleAccounts b2 None r1.2 in
  r1.1 = {| status := 200; body := AccountAdded "X" |} /\
  exchangeClients r1.2 !! "X" = Some (BinanceClient FUTURES "key-1" "secret" None) /\
  r2.1 = {| status := 200; body := AccountAdded "X" |} /\
  exchangeClients r2.2 !! "X" = Some (BybitClient "key-2" "secret" None) /\
  exchangeClients r2.2 !! "X" <> exchangeClients r1.2 !! "X".
Proof. vm_compute. repeat split; discriminate. Qed.

(** ** Selection of the current account *)

(** C7, as the code has it.  [setCurrentAccount] throws exactly when the
    name is not in [cachedData.availableAccounts]; then the state, the
    selection included, is as before.  Otherwise the selection becomes the
    name and nothing else changes. *)
Theorem C7_selection_by_available_accounts n st :
  ((setCurrentAccount n st).1 = Some {| message := "Invalid account: " +:+ n |} <->
     n ∉ availableAccounts (cachedData st)) /\
  ((setCurrentAccount n st).1 = None <-> n ∈ availableAccounts (cachedData st)) /\
  (n ∉ availableAccounts (cachedData st) -> (setCurrentAccount n st).2 = st) /\
  (n ∈ availableAccounts (cachedData st) ->
     let st' := (setCurrentAccount n st).2 in
     currentAccount (cachedData st') = n /\
     availableAccounts (cachedData st') = availableAccounts (cachedData st) /\
     accounts (cachedData st') = accounts (cachedData st) /\
     accountConfigs (cachedData st') = accountConfigs (cachedData st) /\
     exchangeClients st' = exchangeClients st /\
     forall m, tracking st' m = tracking st m).
Proof.
  unfold setCurrentAccount.
  case_bool_decide as H; simpl; repeat split; try done.
Qed.

Lemma C7_selection_by_available_accounts_witness :
  (setCurrentAccount "ghost" sampleStarted).2 = sampleStarted /\
  currentAccount (cachedData (setCurrentAccount "B" sampleStarted).2) = "B".
Proof.
  split.
  - apply (C7_selection_by_available_accounts "ghost" sampleStarted).
    rewrite list_elem_of_In. vm_compute. intros [H|[H|[]]]; discriminate.
  - apply (C7_selection_by_available_accounts "B" sampleStarted).
    apply list_elem_of_In. vm_compute. right; left; reflexivity.
Defined.

(** After the start of the data fetcher the list of available accounts is
    the list of configured names, and no other entry point writes it. *)
Lemma fetchAccounts_from_available cfg names : forall i ios st,
  availableAccounts (cachedData (fetchAccounts_from cfg i names ios st).1)
    = availableAccounts (cachedData st).
Proof.
  induction names as [|a names IH]; intros i ios st; simpl; [done|].
  pose proof (fetchOneAccount_selection cfg a (ios i) st) as [_ H1].
  destruct (fetchOneAccount cfg a (ios i) st) as [st1 evs1]. simpl in H1.
  specialize (IH (S i) ios st1).
  destruct (fetchAccounts_from cfg (S i) names ios st1) as [st2 evs2]. simpl in *.
  by rewrite IH.
Qed.

Lemma startDataFetcher_available cfg answers ios st :
  availableAccounts (cachedData (startDataFetcher cfg answers ios st).1)
    = getAvailableAccounts cfg.
Proof.
  unfold startDataFetcher, fetchAllAccountsData.
  by rewrite fetchAccounts_from_available.
Qed.

(** C7 as stated fails, whichever of the code's two registries "registered"
    is read as.  With the connectors ([isAccountInitialized]): "X", added
    through [POST /accounts] and answered with success, cannot be selected.
    With the configuration ([getAccountConfig]): before the data fetcher has
    filled [availableAccounts], the configured "A" cannot be selected. *)
Lemma C7_registered_account_not_selectable :
  ~ (forall st n, reachable sampleAccounts st ->
       ((setCurrentAccount n st).1 <> None <-> isAccountInitialized st n = false)) /\
  ~ (forall st n, reachable sampleAccounts st ->
       ((setCurrentAccount n st).1 <> None <-> getAccountConfig sampleAccounts n = None)).
Proof.
  split.
  - intros H.
    set (ops := [Startup (fun _ => None) (fun _ => resolves 1000 (sampleSnapshot "A" 1));
                 PostAccounts (sampleBody "X" "binance" "futures" "key-1") None]).
    assert (Hr : reachable sampleAccounts (run sampleAccounts ops initialState).1)
      by (by exists ops).
    destruct (H _ "X" Hr) as [H1 _].
    assert (Hf : (setCurrentAccount "X" (run sampleAccounts ops initialState).1).1 <> None)
      by (vm_compute; discriminate).
    specialize (H1 Hf). vm_compute in H1. discriminate.
  - intros H.
    assert (Hr : reachable sampleAccounts initialState) by (by exists []).
    destruct (H _ "A" Hr) as [H1 _].
    assert (Hf : (setCurrentAccount "A" initialState).1 <> None)
      by (vm_compute; discriminate).
    specialize (H1 Hf). vm_compute in H1. discriminate.
Qed.

(** ** [getCachedData] hands out an independent copy *)


Lemma parse_JObject props h :
  parse (JObject props) h =
    let '(props', h1) := parse_props props h in
    (VRef (length h1), (h1 ++ [OObject props'])%list).
Proof. reflexivity. Qed.

Lemma parse_JArray elems h :
  parse (JArray elems) h =
    let '(elems', h1) := parse_elems elems h in
    (VRef (length h1), (h1 ++ [OArray elems'])%list).
Proof. reflexivity. Qed.


Lemma value_ge_le n m v : (n <= m)%nat -> value_ge m v -> value_ge n v.
Proof. destruct v; simpl; lia. Qed.

Lemma refs_ge_le n m o : (n <= m)%nat -> refs_ge m o -> refs_ge n o.
Proof.
  intros Hnm H. unfold refs_ge in *.
  eapply Forall_impl; [exact H|]. intros v. by apply value_ge_le.
Qed.

Lemma parse_props_adds_fresh props :
  Forall (fun kj => forall h, adds_fresh h (parse kj.2 h)) props ->
  forall h, exists new,
    (parse_props props h).2 = (h ++ new)%list /\
    Forall (refs_ge (length h)) new /\
    Forall (value_ge (length h)) (parse_props props h).1.*2.
Proof.
  induction 1 as [|[k j] props Hj _ IH]; intros h; simpl.
  { exists []. by rewrite app_nil_r. }
  destruct (Hj h) as (new1 & E1 & F1 & V1). simpl in E1, V1.
  destruct (parse j h) as [v h1]. simpl in E1, V1. subst h1.
  destruct (IH (h ++ new1)%list) as (new2 & E2 & F2 & V2).
  destruct (parse_props props (h ++ new1)) as [r h2]. simpl in *. subst h2.
  exists (new1 ++ new2)%list. split; [by rewrite app_assoc|]. split.
  - apply Forall_app. split; [done|].
    eapply Forall_impl; [exact F2|]. intros o. apply refs_ge_le.
    rewrite length_app. lia.
  - constructor; [done|].
    eapply Forall_impl; [exact V2|]. intros o. apply value_ge_le.
    rewrite length_app. lia.
Qed.

Lemma parse_elems_adds_fresh elems :
  Forall (fun j => forall h, adds_fresh h (parse j h)) elems ->
  forall h, exists new,
    (parse_elems elems h).2 = (h ++ new)%list /\
    Forall (refs_ge (length h)) new /\
    Forall (value_ge (length h)) (parse_elems elems h).1.
Proof.
  induction 1 as [|j elems Hj _ IH]; intros h; simpl.
  { exists []. by rewrite app_nil_r. }
  destruct (Hj h) as (new1 & E1 & F1 & V1).
  destruct (parse j h) as [v h1]. simpl in E1, V1. subst h1.
  destruct (IH (h ++ new1)%list) as (new2 & E2 & F2 & V2).
  destruct (parse_elems elems (h ++ new1)) as [r h2]. simpl in *. subst h2.
  exists (new1 ++ new2)%list. split; [by rewrite app_assoc|]. split.
  - apply Forall_app. split; [done|].
    eapply Forall_impl; [exact F2|]. intros o. apply refs_ge_le.
    rewrite length_app. lia.
  - constructor; [done|].
    eapply Forall_impl; [exact V2|]. intros o. apply value_ge_le.
    rewrite length_app. lia.
Qed.

Lemma parse_adds_fresh j : forall h, adds_fresh h (parse j h).
Proof.
  induction j as [| | | |props IH|elems IH] using json_members_ind; intros h;
    try (exists []; simpl; by rewrite app_nil_r).
  - rewrite parse_JObject.
    destruct (parse_props_adds_fresh props IH h) as (new & E & F & V).
    destruct (parse_props props h) as [props' h1]. simpl in *. subst h1.
    exists (new ++ [OObject props'])%list. simpl.
    split; [by rewrite app_assoc|]. split.
    + apply Forall_app. split; [done|]. by constructor.
    + rewrite length_app. lia.
  - rewrite parse_JArray.
    destruct (parse_elems_adds_fresh elems IH h) as (new & E & F & V).
    destruct (parse_elems elems h) as [elems' h1]. simpl in *. subst h1.
    exists (new ++ [OArray elems'])%list. simpl.
    split; [by rewrite app_assoc|]. split.
    + apply Forall_app. split; [done|]. by constructor.
    + rewrite length_app. lia.
Qed.













Lemma stringify_props_origin (rec : value -> option (option json)) props :
  forall r, stringify_props rec props = Some r ->
            Forall (fun kj => exists v, rec v = Some (Some kj.2)) r.
Proof.
  induction props as [|[k v] props IH]; intros r; simpl.
  { intros [= <-]. constructor. }
  destruct (rec v) as [[j|]|] eqn:E; [| |done];
    destruct (stringify_props rec props) as [r'|]; try done; intros [= <-].
  - constructor; [by exists v | by apply IH].
  - by apply IH.
Qed.

Lemma stringify_elems_origin (rec : value -> option (option json)) elems :
  rec VNull = Some (Some JNull) ->
  forall r, stringify_elems rec elems = Some r ->
            Forall (fun j => exists v, rec v = Some (Some j)) r.
Proof.
  intros Hnull. induction elems as [|v elems IH]; intros r; simpl.
  { intros [= <-]. constructor. }
  destruct (rec v) as [[j|]|] eqn:E; [| |done];
    destruct (stringify_elems rec elems) as [r'|]; try done; intros [= <-].
  - constructor; [by exists v | by apply IH].
  - constructor; [by exists VNull | by apply IH].
Qed.

Lemma parse_extends j h l o : h !! l = Some o -> (parse j h).2 !! l = Some o.
Proof.
  intros H. destruct (parse_adds_fresh j h) as (new & -> & _).
  by apply lookup_app_l_Some.
Qed.







(** [data.lastUpdate = ...] is something the holder of [data] can do. *)
Lemma assign_values k v props x :
  x ∈ (assign k v props).*2 -> x = v \/ x ∈ props.*2.
Proof.
  induction props as [|[k' v'] props IH]; simpl.
  - intros H. apply list_elem_of_singleton in H. by left.
  - case_bool_decide as Hk; simpl; rewrite !elem_of_cons.
    + intros [->|Hx]; [by left | by right; right].
    + intros [->|Hx]; [by right; left|].
      destruct (IH Hx) as [->|Hx']; [by left | by right; right].
Qed.



(** On a heap without cycles [JSON.stringify] returns, so [getCachedData]
    returns for a cache that is an object. *)
Lemma stringify_props_total (rec : value -> option (option json)) props :
  Forall (fun v => is_Some (rec v)) props.*2 -> is_Some (stringify_props rec props).
Proof.
  induction props as [|[k v] props IH]; simpl; [by eexists|].
  intros H. apply Forall_cons in H as [[[j|] ->] H];
    destruct (IH H) as [r ->]; by eexists.
Qed.

Lemma stringify_elems_total (rec : value -> option (option json)) elems :
  Forall (fun v => is_Some (rec v)) elems -> is_Some (stringify_elems rec elems).
Proof.
  induction elems as [|v elems IH]; simpl; [by eexists|].
  intros H. apply Forall_cons in H as [[[j|] ->] H];
    destruct (IH H) as [r ->]; by eexists.
Qed.

Lemma stringify_acyclic h rank :
  acyclic h rank ->
  forall fuel v,
    match v with
    | VRef l => (l < length h)%nat /\ (rank l < fuel)%nat
    | _ => True
    end ->
    is_Some (stringify fuel h v).
Proof.
  intros Hacyc. induction fuel as [|fuel IH]; intros v Hv;
    destruct v; simpl; try (by eexists); destruct Hv as [Hl Hr]; [lia|].
  destruct (lookup_lt_is_Some_2 h l Hl) as [o Ho]. rewrite Ho.
  assert (Hvals : Forall (fun v => is_Some (stringify fuel h v)) (values_of o)).
  { apply Forall_forall. intros v Hv. apply IH. destruct v; try done.
    destruct (Hacyc l o l0 Ho Hv). lia. }
  destruct o as [props|elems]; simpl in Hvals.
  - destruct (stringify_props_total _ _ Hvals) as [r ->]. by eexists.
  - destruct (stringify_elems_total _ _ Hvals) as [r ->]. by eexists.
Qed.

Lemma getCachedData_returns h rank cachedData lastUpdate :
  acyclic h rank ->
  (cachedData < length h)%nat ->
  is_Some (getCachedData (S (rank cachedData)) cachedData lastUpdate h).
Proof.
  intros Hacyc Hc.
  destruct (stringify_acyclic h rank Hacyc (S (rank cachedData)) (VRef cachedData))
    as [r Hr]; [split; lia|].
  unfold getCachedData, deepCopy. rewrite Hr.
  assert (Hsome : exists j, r = Some j).
  { simpl in Hr. destruct (h !! cachedData) as [[props|elems]|]; [| |done].
    - destruct (stringify_props _ props); [|done]. injection Hr as <-. by eexists.
    - destruct (stringify_elems _ elems); [|done]. injection Hr as <-. by eexists. }
  destruct Hsome as [j ->]. destruct (parse j h). by eexists.
Qed.



(** * Further properties of the code *)

(** ** Registration ([initializeAccount], [initializeAllAccounts]) *)









(** ** The dictionaries of the account manager *)












(** ** The backoff delay *)

(** X4. The delay computed at the [count]-th failure in a row, for
    [count >= 5]: it is 30000 ms at 5, doubles with every further failure up
    to the tenth, and is 960000 ms from then on; so it always lies between
    30000 and 960000 ms and never decreases with the count. *)
Theorem X4_backoffTime_doubles_then_caps count :
  5 <= count ->
  backoffTime 5 = 30000 /\
  (count < 10 -> backoffTime (count + 1) = 2 * backoffTime count) /\
  (10 <= count -> backoffTime count = 960000) /\
  30000 <= backoffTime count <= 960000 /\
  backoffTime count <= backoffTime (count + 1).
Proof.
  intros H. unfold backoffTime, INITIAL_BACKOFF, MAX_CONSECUTIVE_ERRORS.
  split; [reflexivity|].
  destruct (decide (count < 10)) as [Hlt|Hge].
  - assert (Hc : count = 5 \/ count = 6 \/ count = 7 \/ count = 8 \/ count = 9) by lia.
    destruct Hc as [->|[->|[->|[->| ->]]]];
      repeat split; try (intros; lia); try (intros; reflexivity);
      vm_compute; discriminate.
  - rewrite !Z.min_r by lia.
    repeat split; try (intros; lia); try (intros; reflexivity);
      vm_compute; discriminate.
Qed.

Lemma X4_backoffTime_doubles_then_caps_witness :
  backoffTime 6 = 60000 /\ backoffTime 50 = 960000.
Proof.
  split.
  - destruct (X4_backoffTime_doubles_then_caps 5) as (H5 & Hd & _); [lia|].
    change 6 with (5 + 1). rewrite Hd by lia. rewrite H5. reflexivity.
  - destruct (X4_backoffTime_doubles_then_caps 50) as (_ & _ & Hc & _); [lia|].
    apply Hc. lia.
Defined.

(** ** Error counts and the history of connector calls *)






(** ** Passes that leave an account alone *)

Lemma fetchAccountData_not_called n io st :
  connector_called n (fetchAccountData n io st).2 = false ->
  (fetchAccountData n io st).1 = (None, st).
Proof.
  unfold fetchAccountData.
  destruct (exchangeClients st !! n); [|done].
  destruct (js_gt _ _); [done|].
  destruct (answer io); [case_bool_decide|]; simpl;
    by rewrite bool_decide_eq_true_2.
Qed.

(** When no iteration for [n] would call its connector in the state before
    the loop, the loop leaves [n] as it is. *)
Lemma fetchAccounts_from_untouched cfg n names : forall i ios st,
  (n ∈ names -> forall k, connector_called n (fetchAccountData n (ios k) st).2 = false) ->
  let r := fetchAccounts_from cfg i names ios st in
  exchangeClients r.1 = exchangeClients st /\
  tracking r.1 n = tracking st n /\
  accounts (cachedData r.1) !! n = accounts (cachedData st) !! n /\
  connector_called n r.2 = false.
Proof.
  induction names as [|a names IH]; intros i ios st Hq; simpl; [done|].
  destruct (fetchOneAccount cfg a (ios i) st) as [st1 evs1] eqn:E1.
  assert (Hc : exchangeClients st1 = exchangeClients st).
  { by rewrite <- (fetchOneAccount_clients cfg a (ios i) st), E1. }
  assert (H1 : tracking st1 n = tracking st n /\
               accounts (cachedData st1) !! n = accounts (cachedData st) !! n /\
               connector_called n evs1 = false).
  { destruct (decide (n = a)) as [->|Hne].
    - assert (Hqa : connector_called a (fetchAccountData a (ios i) st).2 = false).
      { apply Hq. apply elem_of_cons. by left. }
      pose proof (fetchAccountData_not_called a (ios i) st Hqa) as Hno.
      unfold fetchOneAccount in E1.
      destruct (fetchAccountData a (ios i) st) as [[d st'] evs]. simpl in *.
      injection Hno as -> ->. by injection E1 as <- <-.
    - pose proof (fetchOneAccount_frame cfg a (ios i) st n Hne) as [Ht Ha].
      rewrite E1 in Ht, Ha. simpl in Ht, Ha. split; [done|split; [done|]].
      pose proof (fetchOneAccount_events cfg a (ios i) st) as He.
      rewrite E1 in He. simpl in He. rewrite He.
      apply not_true_is_false. rewrite fetchAccountData_calls.
      by intros [? _]. }
  destruct H1 as (Ht & Ha & He).
  assert (Hq1 : n ∈ names ->
                forall k, connector_called n (fetchAccountData n (ios k) st1).2 = false).
  { intros Hin k.
    destruct (fetchAccountData_local n (ios k) st1 st) as (_ & -> & _);
      [by rewrite Hc | done |].
    apply Hq. apply elem_of_cons. by right. }
  specialize (IH (S i) ios st1 Hq1).
  destruct (fetchAccounts_from cfg (S i) names ios st1) as [st2 evs2]. simpl in *.
  destruct IH as (IH1 & IH2 & IH3 & IH4).
  rewrite connector_called_app, He, IH4, IH1, IH2, IH3. done.
Qed.

Lemma ticks_untouched cfg n passes : forall st,
  (n ∈ getAvailableAccounts cfg ->
   Forall (fun ios : nat -> FetchIO =>
             forall k, connector_called n (fetchAccountData n (ios k) st).2 = false) passes) ->
  let r := run cfg (List.map Tick passes) st in
  exchangeClients r.1 = exchangeClients st /\
  tracking r.1 n = tracking st n /\
  accounts (cachedData r.1) !! n = accounts (cachedData st) !! n /\
  connector_called n r.2 = false.
Proof.
  induction passes as [|ios passes IH]; intros st Hq; simpl; [done|].
  unfold fetchAllAccountsData.
  destruct (fetchAccounts_from_untouched cfg n (getAvailableAccounts cfg) 0 ios st)
    as (H1 & H2 & H3 & H4).
  { intros Hin. specialize (Hq Hin). by apply Forall_cons in Hq as [? _]. }
  destruct (fetchAccounts_from cfg 0 (getAvailableAccounts cfg) ios st) as [st1 evs1].
  simpl in *.
  destruct (IH st1) as (IH1 & IH2 & IH3 & IH4).
  { intros Hin. specialize (Hq Hin). apply Forall_cons in Hq as [_ Hq].
    eapply Forall_impl; [exact Hq|]. intros ios' Hios' k.
    destruct (fetchAccountData_local n (ios' k) st1 st) as (_ & -> & _);
      [by rewrite H1 | done | done]. }
  destruct (run cfg (List.map Tick passes) st1) as [st2 evs2]. simpl in *.
  rewrite connector_called_app, H4, IH4, IH1, IH2, IH3. done.
Qed.

(** X6. During a backoff the remote service is left alone: over any number
    of passes whose backoff checks all read a time before
    [backoffTimes[name]], the connector of the account is never called and
    its tracking entries and its cache entry stay as they are. *)
Theorem X6_no_call_during_backoff cfg n b passes st :
  backoffTimes st !! n = Some b ->
  Forall (fun ios : nat -> FetchIO => forall k, now_check (ios k) < b) passes ->
  let r := run cfg (List.map Tick passes) st in
  connector_called n r.2 = false /\
  tracking r.1 n = tracking st n /\
  accounts (cachedData r.1) !! n = accounts (cachedData st) !! n.
Proof.
  intros Hb Hpasses r.
  destruct (ticks_untouched cfg n passes st) as (_ & H2 & H3 & H4); [|done].
  intros _. eapply Forall_impl; [exact Hpasses|]. intros ios Hios k.
  apply not_true_is_false. rewrite fetchAccountData_calls.
  intros (_ & _ & Hgt). rewrite Hb in Hgt. simpl in Hgt.
  apply bool_decide_eq_false in Hgt. specialize (Hios k). lia.
Qed.

Lemma X6_no_call_during_backoff_witness :
  let r := run sampleAccounts
               [Tick (fun _ => rejects 10000); Tick (fun _ => rejects 20000);
                Tick (fun _ => resolves 30000 (sampleSnapshot "A" 3))]
               sampleFailing in
  connector_called "A" r.2 = false /\ tracking r.1 "A" = tracking sampleFailing "A".
Proof.
  intros r.
  destruct (X6_no_call_during_backoff sampleAccounts "A" 31501
              [fun _ => rejects 10000; fun _ => rejects 20000;
               fun _ => resolves 30000 (sampleSnapshot "A" 3)] sampleFailing)
    as (H1 & H2 & _).
  - reflexivity.
  - repeat constructor.
  - split; [exact H1 | exact H2].
Defined.

(** X8. A pass fetches the configured accounts only.  For a name that is
    not in [config.accounts], an account added through [POST /accounts]
    included, no number of passes ever calls its connector, changes its
    tracking entries or gives it a cache entry. *)
Theorem X8_unconfigured_account_never_fetched cfg n passes st :
  n ∉ getAvailableAccounts cfg ->
  let r := run cfg (List.map Tick passes) st in
  connector_called n r.2 = false /\
  tracking r.1 n = tracking st n /\
  accounts (cachedData r.1) !! n = accounts (cachedData st) !! n /\
  exchangeClients r.1 = exchangeClients st.
Proof.
  intros Hn r.
  destruct (ticks_untouched cfg n passes st) as (H1 & H2 & H3 & H4); done.
Qed.

Lemma X8_unconfigured_account_never_fetched_witness :
  let st := (postAccounts sampleAccounts (sampleBody "X" "binance" "futures" "key-1")
               None sampleStarted).2 in
  let r := run sampleAccounts
               [Tick (fun _ => resolves 50000 (sampleSnapshot "X" 5));
                Tick (fun _ => resolves 90000 (sampleSnapshot "X" 6))] st in
  isAccountInitialized st "X" = true /\
  connector_called "X" r.2 = false /\
  accounts (cachedData r.1) !! "X" = None.
Proof.
  intros st r.
  destruct (X8_unconfigured_account_never_fetched sampleAccounts "X"
              [fun _ => resolves 50000 (sampleSnapshot "X" 5);
               fun _ => resolves 90000 (sampleSnapshot "X" 6)] st)
    as (H1 & _ & H3 & _).
  - rewrite list_elem_of_In. simpl. intros [H|[H|[]]]; discriminate.
  - split; [reflexivity|]. split; [exact H1|].
    etransitivity; [exact H3 | reflexivity].
Defined.

(** ** Retrying after a failure *)

Lemma backoffTime_le count : 5 <= count -> backoffTime count <= 960000.
Proof.
  intros H. unfold backoffTime, INITIAL_BACKOFF, MAX_CONSECUTIVE_ERRORS.
  assert (H2 : 2 ^ Z.min (count - 5) 5 <= 2 ^ 5)
    by (apply Z.pow_le_mono_r; lia).
  change (2 ^ 5) with 32 in H2. lia.
Qed.

(** X7. A backoff never locks an account out for more than 960000 ms: after
    a fetch whose connector call was rejected at time [t], a fetch attempt
    whose backoff check reads a time that is at least [t + 960000] (and not
    before the check of the failed attempt) calls the connector again. *)
Theorem X7_retry_within_sixteen_minutes n io1 io2 st error :
  is_Some (exchangeClients st !! n) ->
  js_gt (backoffTimes st !! n) (now_check io1) = false ->
  answer io1 = inl error ->
  now_check io1 <= now_check io2 ->
  now_settled io1 + 960000 <= now_check io2 ->
  connector_called n (fetchAccountData n io2 (fetchAccountData n io1 st).1.2).2 = true.
Proof.
  intros [client Hc] Hb Ha Hmono Hlate.
  destruct (fetchAccountData_rejected n io1 st client error Hc Hb Ha) as [evs Hf].
  apply fetchAccountData_calls. rewrite Hf. simpl.
  split; [done|]. split; [by eexists|].
  case_bool_decide as Hcount.
  - rewrite lookup_insert_eq. simpl. apply bool_decide_eq_false.
    pose proof (backoffTime_le _ Hcount). lia.
  - destruct (backoffTimes st !! n) as [b|]; [|done]. simpl in *.
    apply bool_decide_eq_false in Hb. apply bool_decide_eq_false. lia.
Qed.

Lemma X7_retry_within_sixteen_minutes_witness :
  connector_called "A"
    (fetchAccountData "A" (rejects 1100000)
       (fetchAccountData "A" (rejects 40000) sampleFailing).1.2).2 = true.
Proof.
  apply (X7_retry_within_sixteen_minutes "A" (rejects 40000) (rejects 1100000)
           sampleFailing {| message := "ETIMEDOUT" |}).
  - by eexists.
  - reflexivity.
  - reflexivity.
  - simpl. lia.
  - simpl. lia.
Defined.

(** ** The request handlers *)

Lemma js_not_false x : js_not x = false <-> exists s, x = Some s /\ s <> "".
Proof.
  destruct x as [s|]; simpl.
  - rewrite bool_decide_eq_false. split.
    + intros H. by exists s.
    + by intros (s' & [= <-] & H).
  - split; [done|]. by intros (s & ? & _).
Qed.



(** X10. [POST /set-current] answers 200 exactly when the body names an
    account of [cachedData.availableAccounts]; then that account is the
    current one.  Otherwise, that is for an absent or empty name and for a
    name that is not available, it answers 400 and changes nothing. *)
Theorem X10_postSetCurrent_outcome accountName st :
  let r := postSetCurrent accountName st in
  (status r.1 = 200 <->
     exists n, accountName = Some n /\ n <> "" /\ n ∈ availableAccounts (cachedData st)) /\
  (status r.1 <> 200 -> status r.1 = 400 /\ r.2 = st) /\
  (status r.1 = 200 ->
     accountName = Some (currentAccount (cachedData r.2)) /\
     r.1 = {| status := 200; body := CurrentSet (currentAccount (cachedData r.2)) |} /\
     availableAccounts (cachedData r.2) = availableAccounts (cachedData st) /\
     accounts (cachedData r.2) = accounts (cachedData st) /\
     exchangeClients r.2 = exchangeClients st /\
     forall m, tracking r.2 m = tracking st m).
Proof.
  intros r. subst r. unfold postSetCurrent.
  destruct (js_not accountName) eqn:Hn; simpl.
  { split; [|done]. split; [done|]. intros (n & -> & Hne & _). simpl in Hn.
    by apply bool_decide_eq_true in Hn. }
  apply js_not_false in Hn as (n & -> & Hne). simpl.
  unfold setCurrentAccount. case_bool_decide as Hin; simpl.
  - split; [|done]. split; [by eauto|done].
  - split; [|done]. split; [done|]. by intros (n' & [= <-] & _ & Hin').
Qed.

Lemma X10_postSetCurrent_outcome_witness :
  (postSetCurrent (Some "ghost") sampleStarted).2 = sampleStarted /\
  currentAccount (cachedData (postSetCurrent (Some "B") sampleStarted).2) = "B".
Proof.
  split.
  - apply (X10_postSetCurrent_outcome (Some "ghost") sampleStarted).
    vm_compute. discriminate.
  - destruct (X10_postSetCurrent_outcome (Some "B") sampleStarted) as (_ & _ & H).
    destruct (H eq_refl) as (H1 & _).
    assert (H2 : Some "B" = Some (currentAccount (cachedData
                   (postSetCurrent (Some "B") sampleStarted).2))) by exact H1.
    congruence.
Defined.

(** ** Configuration lookups *)


Lemma getAccountByName_None cfg n :
  getAccountByName cfg n = None <-> n ∉ getAvailableAccounts cfg.
Proof.
  unfold getAccountByName, getAvailableAccounts.
  induction cfg as [|c cfg IH]; simpl.
  - split; [intros _; apply not_elem_of_nil | done].
  - rewrite not_elem_of_cons. case_bool_decide as Hc.
    + split; [done|]. intros [Hne _]. by destruct Hne.
    + rewrite IH. split; [by intros ?|by intros [_ ?]].
Qed.






(** ** The list of available accounts *)

Lemma fetchAccounts_from_current cfg names : forall i ios st,
  currentAccount (cachedData (fetchAccounts_from cfg i names ios st).1)
    = currentAccount (cachedData st).
Proof.
  induction names as [|a names IH]; intros i ios st; simpl; [done|].
  pose proof (fetchOneAccount_selection cfg a (ios i) st) as [H1 _].
  destruct (fetchOneAccount cfg a (ios i) st) as [st1 evs1]. simpl in H1.
  specialize (IH (S i) ios st1).
  destruct (fetchAccounts_from cfg (S i) names ios st1) as [st2 evs2]. simpl in *.
  by rewrite IH.
Qed.

Lemma step_available cfg op st :
  availableAccounts (cachedData (step cfg op st).1) = getAvailableAccounts cfg \/
  availableAccounts (cachedData (step cfg op st).1) = availableAccounts (cachedData st).
Proof.
  destruct op; simpl.
  - left. apply startDataFetcher_available.
  - right. apply fetchAccounts_from_available.
  - right. by rewrite postAccounts_cachedData.
  - right. unfold postSetCurrent, setCurrentAccount.
    destruct (js_not accountName); [done|]. by case_bool_decide.
Qed.

Lemma run_available cfg ops : forall st,
  availableAccounts (cachedData st) = getAvailableAccounts cfg ->
  availableAccounts (cachedData (run cfg ops st).1) = getAvailableAccounts cfg.
Proof.
  induction ops as [|op ops IH]; intros st H; simpl; [done|].
  pose proof (step_available cfg op st) as H1.
  destruct (step cfg op st) as [st1 evs1]. simpl in H1.
  assert (H2 : availableAccounts (cachedData st1) = getAvailableAccounts cfg)
    by (destruct H1 as [H1|H1]; congruence).
  specialize (IH st1 H2). by destruct (run cfg ops st1).
Qed.

(** X11. Once the data fetcher has started, whichever initialisations
    failed and whatever requests and passes follow, the list of available
    accounts is the list of configured names; so from then on
    [setCurrentAccount] succeeds exactly for the configured names.  Right
    after the start the current account is the first configured name. *)
Theorem X11_available_accounts_after_start cfg answers ios ops st0 :
  let st := (run cfg (Startup answers ios :: ops) st0).1 in
  availableAccounts (cachedData st) = getAvailableAccounts cfg /\
  (forall n, (setCurrentAccount n st).1 = None <-> is_Some (getAccountConfig cfg n)) /\
  currentAccount (cachedData (startDataFetcher cfg answers ios st0).1) =
    match cfg with
    | first :: _ => name first
    | [] => currentAccount (cachedData st0)
    end.
Proof.
  intros st.
  assert (Hav : availableAccounts (cachedData st) = getAvailableAccounts cfg).
  { subst st. simpl.
    pose proof (startDataFetcher_available cfg answers ios st0) as H1.
    destruct (startDataFetcher cfg answers ios st0) as [st1 evs1]. simpl in H1.
    pose proof (run_available cfg ops st1 H1) as H2.
    by destruct (run cfg ops st1). }
  split; [done|]. split.
  - intros n. unfold setCurrentAccount. rewrite Hav.
    unfold getAccountConfig.
    pose proof (getAccountByName_None cfg n) as Hnone.
    case_bool_decide as Hin; simpl.
    + split; [intros _|done].
      destruct (getAccountByName cfg n); [by eexists|].
      by destruct (proj1 Hnone eq_refl).
    + split; [done|]. intros [c Hc].
      rewrite (proj2 Hnone Hin) in Hc. done.
  - unfold startDataFetcher, fetchAllAccountsData.
    rewrite fetchAccounts_from_current. simpl.
    destruct cfg; simpl; [|done].
    done.
Qed.

(** ** The health report, further *)


(** X14. In every state the service can reach, and for a time that is not
    negative, an account that the health report shows in backoff has at
    least 5 errors in a row (and a [backoffEnds] after that time): an
    account with fewer than 5 errors in a row is never in backoff. *)
Theorem X14_backoff_only_after_five_errors cfg now st n r :
  reachable cfg st ->
  0 <= now ->
  getHealthStatus cfg now st !! n = Some r ->
  inBackoff r = true ->
  5 <= errorCount r /\ exists b, backoffEnds r = Some b /\ now < b.
Proof.
  intros Hreach Hnow Hr Hin.
  rewrite getHealthStatus_lookup in Hr.
  destruct (exchangeClients st !! n) as [c|] eqn:Hc; [|done].
  injection Hr as <-. simpl in *.
  destruct (reachable_tracking_ok cfg st Hreach n) as (t & e & b & Ht & He & Hb);
    [by eexists|].
  unfold tracking in Ht. injection Ht as _ Hec Hbo.
  rewrite Hec, Hbo in *. simpl in *. rewrite Hin.
  apply bool_decide_eq_true in Hin.
  unfold MAX_CONSECUTIVE_ERRORS in Hb.
  split; [lia|]. by exists b.
Qed.

Lemma X14_backoff_only_after_five_errors_witness :
  5 <= errorCount (healthOf sampleAccounts 2000 sampleFailing "A").
Proof.
  assert (Hr : reachable sampleAccounts sampleFailing) by (by exists sampleFailingOps).
  apply (X14_backoff_only_after_five_errors sampleAccounts 2000 sampleFailing "A" _ Hr).
  - lia.
  - reflexivity.
  - reflexivity.
Defined.

(** ** What the cache can contain *)


Lemma fetchOneAccount_cache_of_configured cfg a io st :
  a ∈ getAvailableAccounts cfg ->
  cache_of_configured cfg st -> cache_of_configured cfg (fetchOneAccount cfg a io st).1.
Proof.
  intros Ha Hok n. rewrite fetchOneAccount_accounts, fetchOneAccount_clients.
  destruct ((fetchAccountData a io st).1.1) as [d|] eqn:E; [|by apply Hok].
  destruct (decide (a = n)) as [->|Hne].
  - intros _. apply fetchAccountData_returns in E as (Hc & _). done.
  - rewrite lookup_insert_ne by done. by apply Hok.
Qed.

Lemma fetchAccounts_from_cache_of_configured cfg names : forall i ios st,
  (forall a, a ∈ names -> a ∈ getAvailableAccounts cfg) ->
  cache_of_configured cfg st ->
  cache_of_configured cfg (fetchAccounts_from cfg i names ios st).1.
Proof.
  induction names as [|a names IH]; intros i ios st Hsub Hok; simpl; [done|].
  pose proof (fetchOneAccount_cache_of_configured cfg a (ios i) st) as H1.
  destruct (fetchOneAccount cfg a (ios i) st) as [st1 evs1]. simpl in H1.
  specialize (IH (S i) ios st1).
  destruct (fetchAccounts_from cfg (S i) names ios st1) as [st2 evs2]. simpl in *.
  apply IH.
  - intros a' Ha'. apply Hsub. apply elem_of_cons. by right.
  - apply H1; [|done]. apply Hsub. apply elem_of_cons. by left.
Qed.

Lemma initializeAccount_clients_grow accountConfig a st n :
  is_Some (exchangeClients st !! n) ->
  is_Some (exchangeClients (initializeAccount accountConfig a st).2 !! n).
Proof.
  intros H. unfold initializeAccount.
  destruct (makeClient accountConfig); [done|]. destruct a; [done|]. simpl.
  destruct (decide (name accountConfig = n)) as [->|Hne].
  - rewrite lookup_insert_eq. by eexists.
  - by rewrite lookup_insert_ne.
Qed.

Lemma initializeAllAccounts_from_clients_grow l n : forall i answers st,
  is_Some (exchangeClients st !! n) ->
  is_Some (exchangeClients (initializeAllAccounts_from i l answers st) !! n).
Proof.
  induction l as [|c l IH]; intros i answers st H; simpl; [done|].
  apply IH. by apply initializeAccount_clients_grow.
Qed.

Lemma step_cache_of_configured cfg op st :
  cache_of_configured cfg st -> cache_of_configured cfg (step cfg op st).1.
Proof.
  intros Hok. destruct op; simpl.
  - unfold startDataFetcher, fetchAllAccountsData.
    apply fetchAccounts_from_cache_of_configured; [done|].
    intros n. simpl. unfold initializeAllAccounts.
    rewrite initializeAllAccounts_from_cachedData. intros Hn.
    destruct (Hok n Hn) as [H1 H2]. split; [done|].
    by apply initializeAllAccounts_from_clients_grow.
  - by apply fetchAccounts_from_cache_of_configured.
  - intros n. rewrite postAccounts_cachedData. intros Hn.
    destruct (Hok n Hn) as [H1 H2]. split; [done|].
    unfold postAccounts.
    destruct (_ || _); [done|].
    destruct (getAccountConfig cfg _); [done|].
    match goal with |- context [initializeAccount ?c initialize_answer st] =>
      pose proof (initializeAccount_clients_grow c initialize_answer st n H2) as H';
      destruct (initializeAccount c initialize_answer st) as [[e|] st'] end; done.
  - intros n. rewrite postSetCurrent_accounts. intros Hn.
    destruct (Hok n Hn) as [H1 H2]. split; [done|].
    unfold postSetCurrent, setCurrentAccount.
    destruct (js_not accountName); [done|]. by case_bool_decide.
Qed.

(** X17. In every state the service can reach, each account that has a
    snapshot in the cache is a configured account with a stored connector:
    the cache never holds data for a name that is not configured or that
    was never initialised, and connectors are never removed. *)
Theorem X17_cached_accounts_are_configured cfg st n :
  reachable cfg st ->
  is_Some (accounts (cachedData st) !! n) ->
  n ∈ getAvailableAccounts cfg /\ isAccountInitialized st n = true.
Proof.
  intros [ops <-] Hn.
  assert (H : forall ops st0, cache_of_configured cfg st0 ->
                              cache_of_configured cfg (run cfg ops st0).1).
  { clear. induction ops as [|op ops IH]; intros st0 Hok; simpl; [done|].
    pose proof (step_cache_of_configured cfg op st0 Hok) as H1.
    destruct (step cfg op st0) as [st1 evs1]. simpl in H1.
    specialize (IH st1 H1). by destruct (run cfg ops st1). }
  destruct (H ops initialState) with (n := n) as [H1 H2]; [|done|].
  - intros m [d Hd]. simpl in Hd. by rewrite lookup_empty in Hd.
  - split; [done|]. unfold isAccountInitialized. by apply bool_decide_eq_true.
Qed.

Lemma X17_cached_accounts_are_configured_witness :
  "A" ∈ getAvailableAccounts sampleAccounts /\ isAccountInitialized sampleFailing "A" = true.
Proof.
  assert (Hr : reachable sampleAccounts sampleFailing) by (by exists sampleFailingOps).
  apply (X17_cached_accounts_are_configured sampleAccounts sampleFailing "A" Hr).
  by eexists.
Defined.

(** ** What [getCachedData] returns *)

Lemma get_property_assign k v props : get_property k (assign k v props) = v.
Proof.
  induction props as [|[k' v'] props IH]; simpl.
  - by rewrite bool_decide_eq_true_2.
  - case_bool_decide as Hk; simpl.
    + by rewrite bool_decide_eq_true_2.
    + by rewrite bool_decide_eq_false_2.
Qed.

(** X15. On a heap without cycles and dangling references, with the cache
    an object, [getCachedData] returns (with any [fuel] above the rank of
    the cache object): the result is a reference to a new object, and the
    [lastUpdate] property of that object is the given time string. *)
Theorem X15_getCachedData_returns_stamped h rank fuel cachedData lastUpdate props :
  acyclic h rank ->
  (rank cachedData < fuel)%nat ->
  h !! cachedData = Some (OObject props) ->
  exists l h1 props',
    getCachedData fuel cachedData lastUpdate h = Some (VRef l, h1) /\
    (length h <= l)%nat /\
    h1 !! l = Some (OObject props') /\
    get_property "lastUpdate" props' = VString lastUpdate.
Proof.
  intros Hacyc Hfuel Hc.
  destruct (stringify_acyclic h rank Hacyc fuel (VRef cachedData)) as [r Hr].
  { split; [by eapply lookup_lt_Some | done]. }
  unfold getCachedData, deepCopy. rewrite Hr.
  destruct fuel as [|fuel]; [done|]. simpl in Hr. rewrite Hc in Hr.
  destruct (stringify_props (stringify fuel h) props) as [r'|]; [|done].
  injection Hr as <-. rewrite parse_JObject.
  assert (Hlen : (length h <= length (parse_props r' h).2)%nat).
  { destruct (parse_props_adds_fresh r') with (h := h) as (new & -> & _).
    - apply Forall_forall. intros kj _ h'. apply parse_adds_fresh.
    - rewrite length_app. lia. }
  destruct (parse_props r' h) as [props' hc]. simpl in Hlen.
  exists (length hc), (<[length hc := OObject (assign "lastUpdate" (VString lastUpdate) props')]>
                         (hc ++ [OObject props'])),
         (assign "lastUpdate" (VString lastUpdate) props').
  split; [|split; [done|split]].
  - unfold set_property. rewrite lookup_app_r by lia.
    by rewrite Nat.sub_diag.
  - apply list_lookup_insert_eq. rewrite length_app. simpl. lia.
  - apply get_property_assign.
Qed.

Lemma X15_getCachedData_returns_stamped_witness :
  exists l h1 props',
    getCachedData 5 sampleCacheLoc "2026-11-02T00:00:00.000Z" sampleHeap = Some (VRef l, h1) /\
    (length sampleHeap <= l)%nat /\
    h1 !! l = Some (OObject props') /\
    get_property "lastUpdate" props' = VString "2026-11-02T00:00:00.000Z".
Proof.
  apply (X15_getCachedData_returns_stamped sampleHeap
           (fun l => match l with
                     | 7 => 4 | 3 => 3 | 6 => 3 | 0 => 2 | 5 => 2 | 4 => 2
                     | _ => 1
                     end)%nat 5 sampleCacheLoc "2026-11-02T00:00:00.000Z"
           [("accounts", VRef 3%nat); ("currentAccount", VString "A");
            ("availableAccounts", VRef 4%nat); ("accountConfigs", VRef 6%nat)]).
  - intros l o l' Ho Hl'.
    do 8 (destruct l as [|l]; [injection Ho as <-; simpl in Hl';
            repeat (apply elem_of_cons in Hl' as [Hl'|Hl'];
                    [try discriminate Hl'; injection Hl' as ->; simpl; lia|]);
            by apply elem_of_nil in Hl'|]).
    done.
  - simpl. lia.
  - reflexivity.
Defined.


Lemma parse_props_tidy r :
  Forall (fun kj => tidy kj.2) r ->
  forall h, exists new,
    (parse_props r h).2 = h ++ new /\
    Forall (fun o => Forall json_value (values_of o)) new /\
    Forall json_value (parse_props r h).1.*2.
Proof.
  induction 1 as [|[k j] r Hj _ IH]; intros h; simpl.
  { exists []. by rewrite app_nil_r. }
  destruct (Hj h) as (new1 & E1 & F1 & V1). simpl in E1, V1.
  destruct (parse j h) as [v h1]. simpl in E1, V1. subst h1.
  destruct (IH (h ++ new1)) as (new2 & E2 & F2 & V2).
  destruct (parse_props r (h ++ new1)) as [rest h2]. simpl in *. subst h2.
  exists (new1 ++ new2). split; [by rewrite app_assoc|]. split.
  - apply Forall_app. by split.
  - by constructor.
Qed.

Lemma parse_elems_tidy r :
  Forall tidy r ->
  forall h, exists new,
    (parse_elems r h).2 = h ++ new /\
    Forall (fun o => Forall json_value (values_of o)) new /\
    Forall json_value (parse_elems r h).1.
Proof.
  induction 1 as [|j r Hj _ IH]; intros h; simpl.
  { exists []. by rewrite app_nil_r. }
  destruct (Hj h) as (new1 & E1 & F1 & V1).
  destruct (parse j h) as [v h1]. simpl in E1, V1. subst h1.
  destruct (IH (h ++ new1)) as (new2 & E2 & F2 & V2).
  destruct (parse_elems r (h ++ new1)) as [rest h2]. simpl in *. subst h2.
  exists (new1 ++ new2). split; [by rewrite app_assoc|]. split.
  - apply Forall_app. by split.
  - by constructor.
Qed.

Lemma written_number_tidy bits : tidy (written_number bits).
Proof.
  intros h. exists []. rewrite app_nil_r. unfold written_number.
  destruct (is_finite bits) eqn:Hfin; simpl; [|done].
  split; [done|]. split; [done|].
  destruct (Z.eqb_spec bits (2 ^ 63)) as [->|Hne]; [|done].
  split; [reflexivity|]. vm_compute. discriminate.
Qed.

Lemma stringify_tidy fuel h : forall v j, stringify fuel h v = Some (Some j) -> tidy j.
Proof.
  assert (Hprim : forall j, j = JNull \/ (exists b, j = JBool b) \/ (exists s, j = JString s) ->
                            tidy j).
  { intros j Hj h'. exists []. rewrite app_nil_r.
    destruct Hj as [->|[[b ->]|[s ->]]]; done. }
  induction fuel as [|fuel IH]; intros v j Hv.
  - destruct v; simpl in Hv; try done; injection Hv as <-;
      try apply written_number_tidy; apply Hprim; eauto.
  - destruct v; simpl in Hv; try done.
    1-4: injection Hv as <-; try apply written_number_tidy; apply Hprim; eauto.
    destruct (h !! l) as [[props|elems]|]; [| |done].
    + destruct (stringify_props (stringify fuel h) props) as [r|] eqn:E; [|done].
      injection Hv as <-. intros h'. rewrite parse_JObject.
      assert (Hr : Forall (fun kj => tidy kj.2) r).
      { eapply Forall_impl; [exact (stringify_props_origin _ _ _ E)|].
        intros kj [v Hkj]. by eapply IH. }
      destruct (parse_props_tidy r Hr h') as (new & E1 & F1 & V1).
      destruct (parse_props r h') as [props' h1]. simpl in *. subst h1.
      exists (new ++ [OObject props']). split; [by rewrite app_assoc|].
      split; [|done]. apply Forall_app. split; [done|]. by constructor.
    + destruct (stringify_elems (stringify fuel h) elems) as [r|] eqn:E; [|done].
      injection Hv as <-. intros h'. rewrite parse_JArray.
      assert (Hr : Forall tidy r).
      { assert (Hn : stringify fuel h VNull = Some (Some JNull)) by (by destruct fuel).
        eapply Forall_impl; [exact (stringify_elems_origin _ _ Hn _ E)|].
        intros kj [v Hkj]. by eapply IH. }
      destruct (parse_elems_tidy r Hr h') as (new & E1 & F1 & V1).
      destruct (parse_elems r h') as [elems' h1]. simpl in *. subst h1.
      exists (new ++ [OArray elems']). split; [by rewrite app_assoc|].
      split; [|done]. apply Forall_app. split; [done|]. by constructor.
Qed.

(** X16. What [getCachedData] returns is plain JSON data: no property or
    element of an object of the copy is [undefined], [NaN], an infinity or
    [-0], whatever the cache holds (such properties are dropped, such
    elements and numbers become [null], [-0] becomes [0]). *)
Theorem X16_copy_holds_json_values fuel cachedData lastUpdate h data h1 :
  getCachedData fuel cachedData lastUpdate h = Some (data, h1) ->
  json_value data /\
  forall l o, (length h <= l)%nat -> h1 !! l = Some o -> Forall json_value (values_of o).
Proof.
  unfold getCachedData, deepCopy.
  destruct (stringify fuel h (VRef cachedData)) as [[j|]|] eqn:Hj; try done.
  destruct (stringify_tidy fuel h _ _ Hj h) as (new & E & F & V).
  destruct (parse j h) as [d hc]. simpl in E, V. subst hc.
  intros [= -> <-]. split; [done|].
  assert (Hnew : forall l o, (length h <= l)%nat -> (h ++ new) !! l = Some o ->
                             Forall json_value (values_of o)).
  { intros l o Hl Ho. rewrite lookup_app_r in Ho by lia.
    rewrite Forall_forall in F. apply F. by eapply list_elem_of_lookup_2. }
  intros l o Hl Ho. unfold set_property in Ho.
  destruct data as [| | | | |l0]; try (by eapply Hnew).
  destruct ((h ++ new) !! l0) as [[props|elems]|] eqn:E0; try (by eapply Hnew).
  destruct (decide (l0 = l)) as [->|Hne].
  - apply list_lookup_insert_Some in Ho as [(_ & <- & _)|(? & _)]; [|done].
    simpl. apply Forall_forall. intros x Hx.
    apply assign_values in Hx as [->|Hx]; [done|].
    specialize (Hnew l _ Hl E0). simpl in Hnew.
    rewrite Forall_forall in Hnew. by apply Hnew.
  - rewrite list_lookup_insert_ne in Ho by done. by eapply Hnew.
Qed.

Lemma X16_copy_holds_json_values_witness :
  match getCachedData 5 sampleCacheLoc "2026-11-02T00:00:00.000Z" sampleHeap with
  | Some (data, h1) =>
      json_value data /\
      forall o, h1 !! 13%nat = Some o -> Forall json_value (values_of o)
  | None => False
  end.
Proof.
  destruct (getCachedData 5 sampleCacheLoc "2026-11-02T00:00:00.000Z" sampleHeap)
    as [[data h1]|] eqn:E; [|vm_compute in E; discriminate].
  destruct (X16_copy_holds_json_values _ _ _ _ _ _ E) as [H1 H2].
  split; [exact H1|]. intros o. apply H2. simpl. lia.
Defined.

(** ** The cached configurations and the selection *)





(** X19. In every state the service can reach, the list of available
    accounts is empty (before the start of the data fetcher) or the list of
    configured names, and the current account is the empty string or a
    configured name. *)
Theorem X19_current_account_is_configured cfg st :
  reachable cfg st ->
  (availableAccounts (cachedData st) = [] \/
   availableAccounts (cachedData st) = getAvailableAccounts cfg) /\
  (currentAccount (cachedData st) = "" \/
   currentAccount (cachedData st) ∈ getAvailableAccounts cfg).
Proof.
  intros [ops <-].
  assert (Hstep : forall op s,
    (availableAccounts (cachedData s) = [] \/
     availableAccounts (cachedData s) = getAvailableAccounts cfg) /\
    (currentAccount (cachedData s) = "" \/
     currentAccount (cachedData s) ∈ getAvailableAccounts cfg) ->
    (availableAccounts (cachedData (step cfg op s).1) = [] \/
     availableAccounts (cachedData (step cfg op s).1) = getAvailableAccounts cfg) /\
    (currentAccount (cachedData (step cfg op s).1) = "" \/
     currentAccount (cachedData (step cfg op s).1) ∈ getAvailableAccounts cfg)).
  { intros op s [Hav Hcur]. destruct op; simpl.
    - split; [right; apply startDataFetcher_available|].
      unfold startDataFetcher, fetchAllAccountsData.
      rewrite fetchAccounts_from_current. simpl.
      unfold initializeAllAccounts. rewrite initializeAllAccounts_from_cachedData.
      destruct cfg as [|c cfg]; simpl; [done|]. right. apply elem_of_cons. by left.
    - unfold fetchAllAccountsData.
      by rewrite fetchAccounts_from_available, fetchAccounts_from_current.
    - by rewrite postAccounts_cachedData.
    - unfold postSetCurrent, setCurrentAccount.
      destruct (js_not accountName); [done|].
      case_bool_decide as Hin; simpl; [|done].
      split; [done|]. right.
      destruct Hav as [Hav|Hav]; rewrite Hav in Hin; [|done].
      by apply elem_of_nil in Hin. }
  assert (Hrun : forall ops s,
    (availableAccounts (cachedData s) = [] \/
     availableAccounts (cachedData s) = getAvailableAccounts cfg) /\
    (currentAccount (cachedData s) = "" \/
     currentAccount (cachedData s) ∈ getAvailableAccounts cfg) ->
    (availableAccounts (cachedData (run cfg ops s).1) = [] \/
     availableAccounts (cachedData (run cfg ops s).1) = getAvailableAccounts cfg) /\
    (currentAccount (cachedData (run cfg ops s).1) = "" \/
     currentAccount (cachedData (run cfg ops s).1) ∈ getAvailableAccounts cfg)).
  { clear ops. induction ops as [|op ops IH]; intros s Hs; simpl; [done|].
    pose proof (Hstep op s Hs) as H1.
    destruct (step cfg op s) as [s1 evs1]. simpl in H1.
    specialize (IH s1 H1). by destruct (run cfg ops s1). }
  apply Hrun. simpl. split; by left.
Qed.

Lemma X19_current_account_is_configured_witness :
  currentAccount (cachedData sampleFailing) = "" \/
  currentAccount (cachedData sampleFailing) ∈ getAvailableAccounts sampleAccounts.
Proof.
  assert (Hr : reachable sampleAccounts sampleFailing) by (by exists sampleFailingOps).
  exact (proj2 (X19_current_account_is_configured sampleAccounts sampleFailing Hr)).
Defined.

(** ** How often a pass calls a connector *)

Lemma connector_calls_app n evs1 evs2 :
  connector_calls n (evs1 ++ evs2) = (connector_calls n evs1 + connector_calls n evs2)%nat.
Proof. unfold connector_calls. by rewrite List.filter_app, length_app. Qed.

Lemma fetchAccountData_connector_calls a io st n :
  (connector_calls n (fetchAccountData a io st).2
   <= if bool_decide (a = n) then 1 else 0)%nat.
Proof.
  unfold fetchAccountData, connector_calls.
  destruct (exchangeClients st !! a); simpl; [|lia].
  destruct (js_gt _ _); simpl; [lia|].
  destruct (answer io); [case_bool_decide|]; simpl;
    case_bool_decide; simpl; lia.
Qed.

(** X20. One pass calls the connector of an account at most as often as
    its name occurs in [config.accounts]: at most once when the configured
    names are distinct, and never for a name that is not configured. *)
Theorem X20_one_call_per_account_and_pass cfg ios st n :
  let evs := (fetchAllAccountsData cfg ios st).2 in
  (connector_calls n evs <= occurrences n (getAvailableAccounts cfg))%nat /\
  (NoDup (getAvailableAccounts cfg) -> (connector_calls n evs <= 1)%nat).
Proof.
  intros evs.
  assert (H : forall names i s,
            (connector_calls n (fetchAccounts_from cfg i names ios s).2
             <= occurrences n names)%nat).
  { clear. induction names as [|a names IH]; intros i s; simpl; [done|].
    pose proof (fetchOneAccount_events cfg a (ios i) s) as He.
    pose proof (fetchAccountData_connector_calls a (ios i) s n) as Hc.
    destruct (fetchOneAccount cfg a (ios i) s) as [s1 evs1]. simpl in He.
    specialize (IH (S i) s1).
    destruct (fetchAccounts_from cfg (S i) names ios s1) as [s2 evs2]. simpl in *.
    rewrite connector_calls_app, He. unfold occurrences in *. simpl.
    case_bool_decide; simpl; lia. }
  assert (Hocc : forall names, NoDup names -> (occurrences n names <= 1)%nat).
  { clear. induction names as [|a names IH]; intros Hnd; unfold occurrences in *; simpl.
    - lia.
    - apply NoDup_cons in Hnd as [Hnotin Hnd]. specialize (IH Hnd).
      case_bool_decide as Ha; simpl; [|lia]. subst a.
      assert (Hz : List.filter (fun a => bool_decide (a = n)) names = []).
      { clear IH Hnd. induction names as [|b names IH]; simpl; [done|].
        apply not_elem_of_cons in Hnotin as [Hne Hnotin].
        rewrite bool_decide_eq_false_2 by done. by apply IH. }
      rewrite Hz. simpl. lia. }
  subst evs. unfold fetchAllAccountsData. split; [apply H|].
  intros Hnd. specialize (H (getAvailableAccounts cfg) 0%nat st).
  specialize (Hocc _ Hnd). lia.
Qed.

Lemma X20_one_call_per_account_and_pass_witness :
  (connector_calls "A"
     (fetchAllAccountsData sampleAccounts (fun _ => rejects 40000) sampleFailing).2 <= 1)%nat.
Proof.
  apply (X20_one_call_per_account_and_pass sampleAccounts (fun _ => rejects 40000)
           sampleFailing "A").
  apply NoDup_cons. split; [|apply NoDup_singleton].
  intros H. apply list_elem_of_singleton in H. discriminate H.
Defined.

(** ** An account added while the service runs *)


